(** * IDS / IFC toolkit: a shallow embedding of the Python scripts

    The development follows the scripts of the repository one module per
    component:

    - [IdsParser]   : [parse_ids] of [IDS_Parser_2.py] (repeated verbatim in
                      [ids_match_panel.py]);
    - [MatchPanel]  : [SIMPLE_OT_match_ids] of [ids_match_panel.py];
    - [PatchEngine] : [process_ifc_file] / [handle_property_single_value] of
                      [IFC_fix_properties.py] and of the patch panels;
    - [Analyzer]    : the generation pass and the entry points of
                      [ifc2ids_recipe.py];
    - [FetchPanel]  : [BIM_OT_connect_ids_server] of [ids_fetch_panel.py].

    Python [dict]s that are only looked up are [gmap]s; those that are
    iterated ([items()]) are association lists in insertion order.  Python
    [print] is a list of emitted lines, exceptions are an explicit outcome. *)

From Stdlib Require Import ZArith QArith List String Ascii Lia DecimalString.
From stdpp Require Import base option gmap strings list sorting.

Close Scope Q_scope.
Open Scope Z_scope.
Open Scope string_scope.
Open Scope list_scope.
Open Scope stdpp_scope.

(** ** Python strings *)

(** [bool(s)] for a [str]: true exactly for the non-empty string. *)
Definition truthy (s : string) : bool :=
  match s with
  | EmptyString => false
  | String _ _ => true
  end.

(** [s.replace(old, new)]: every non-overlapping occurrence of [old], found
    scanning from the left, is replaced.  [skip] counts the characters of a
    matched occurrence that are still to be dropped. *)
Fixpoint str_replace_from (old new s : string) (skip : nat) : string :=
  match s with
  | EmptyString => EmptyString
  | String c s' =>
      match skip with
      | S k => str_replace_from old new s' k
      | O =>
          if String.prefix old s
          then new +:+ str_replace_from old new s' (String.length old - 1)
          else String c (str_replace_from old new s' 0)
      end
  end.

(** With an empty [old], Python puts [new] before every character and at
    the end. *)
Fixpoint str_intersperse (new s : string) : string :=
  match s with
  | EmptyString => new
  | String c s' => new +:+ String c (str_intersperse new s')
  end.

Definition str_replace (s old new : string) : string :=
  match old with
  | EmptyString => str_intersperse new s
  | String _ _ => str_replace_from old new s 0
  end.

(** [s.lower()] on ASCII letters; bytes above 127 are left alone. *)
Definition ascii_lower (c : ascii) : ascii :=
  let n := nat_of_ascii c in
  if (Nat.leb 65 n && Nat.leb n 90)%bool then ascii_of_nat (n + 32) else c.

Fixpoint str_lower (s : string) : string :=
  match s with
  | EmptyString => EmptyString
  | String c s' => String (ascii_lower c) (str_lower s')
  end.

(** ** Python scalar values

    The values a JSON configuration, an argument list or an IFC literal
    ([wrappedValue]) holds in this development.  Floating-point literals
    are not part of the model. *)
Inductive pyval :=
  | PNone
  | PBool (b : bool)
  | PInt (n : Z)
  | PStr (s : string).

Inductive exn := ValueError | TypeError | AttributeError.

(** [type(x)] *)
Inductive pytype := NoneType | bool_t | int_t | str_t.

Definition type_of (x : pyval) : pytype :=
  match x with
  | PNone => NoneType
  | PBool _ => bool_t
  | PInt _ => int_t
  | PStr _ => str_t
  end.

(** [bool(x)] *)
Definition py_bool (x : pyval) : bool :=
  match x with
  | PNone => false
  | PBool b => b
  | PInt n => negb (n =? 0)%Z
  | PStr s => truthy s
  end.

(** [x == y]; [bool] is a subclass of [int], so [True == 1]. *)
Definition py_eqb (x y : pyval) : bool :=
  match x, y with
  | PNone, PNone => true
  | PBool a, PBool b => Bool.eqb a b
  | PBool a, PInt n | PInt n, PBool a => ((if a then 1 else 0) =? n)%Z
  | PInt n, PInt m => (n =? m)%Z
  | PStr s, PStr t => String.eqb s t
  | _, _ => false
  end.

(** Whitespace stripped by [int(str)] (the ASCII part). *)
Definition is_space (c : ascii) : bool :=
  let n := nat_of_ascii c in
  ((Nat.leb 9 n && Nat.leb n 13) || (Nat.leb 28 n && Nat.leb n 32))%bool.

Definition digit_value (c : ascii) : option Z :=
  let n := nat_of_ascii c in
  if (Nat.leb 48 n && Nat.leb n 57)%bool then Some (Z.of_nat n - 48) else None.

Fixpoint all_space (s : string) : bool :=
  match s with
  | EmptyString => true
  | String c s' => (is_space c && all_space s')%bool
  end.

Fixpoint lstrip (s : string) : string :=
  match s with
  | EmptyString => EmptyString
  | String c s' => if is_space c then lstrip s' else s
  end.

(** Decimal digits with single underscores between them, then optional
    trailing whitespace.  [after_digit] tells whether the last character
    read was a digit. *)
Fixpoint int_digits (s : string) (acc : Z) (after_digit : bool) : option Z :=
  match s with
  | EmptyString => if after_digit then Some acc else None
  | String c s' =>
      match digit_value c with
      | Some d => int_digits s' (10 * acc + d) true
      | None =>
          if Ascii.eqb c "_" then
            if after_digit then int_digits s' acc false else None
          else if (is_space c && after_digit && all_space s')%bool then Some acc
          else None
      end
  end.

(** [int(s)] for a [str] in base 10, on ASCII digits and whitespace; [None]
    is [ValueError]. *)
Definition int_of_str (s : string) : option Z :=
  match lstrip s with
  | String "+" r => int_digits r 0 false
  | String "-" r => Z.opp <$> int_digits r 0 false
  | r => int_digits r 0 false
  end.

(** [str(n)] for an [int]. *)
Definition str_of_int (n : Z) : string := NilZero.string_of_int (Z.to_int n).

(** [int(x)], [str(x)] and [type(v)(x)]. *)
Definition py_int (x : pyval) : exn + Z :=
  match x with
  | PNone => inl TypeError
  | PBool b => inr (if b then 1 else 0)
  | PInt n => inr n
  | PStr s => match int_of_str s with Some n => inr n | None => inl ValueError end
  end.

Definition py_str (x : pyval) : string :=
  match x with
  | PNone => "None"
  | PBool b => if b then "True" else "False"
  | PInt n => str_of_int n
  | PStr s => s
  end.

Definition construct_like (v x : pyval) : exn + pyval :=
  match v with
  | PNone => inl TypeError            (* NoneType takes no arguments *)
  | PBool _ => inr (PBool (py_bool x))
  | PInt _ => match py_int x with inr n => inr (PInt n) | inl e => inl e end
  | PStr _ => inr (PStr (py_str x))
  end.

(** ** The structural parser ([parse_ids]) *)

Module IdsParser.

(** The part of an IDS document the parser reads.  A field is [None] when
    the path given to [find] / [findtext] / [get] selects nothing. *)
Record ids_entity := Entity {
  ent_name : option string;            (* ids:name/ids:simpleValue *)
  ent_predefinedType : option string   (* ids:predefinedType/ids:simpleValue *)
}.

Record ids_property := Property {
  prop_propertySet : option string;    (* ids:propertySet/ids:simpleValue *)
  prop_baseName : option string        (* ids:baseName/ids:simpleValue *)
}.

Record ids_specification := Specification {
  spec_name_attr : option string;                  (* @name *)
  spec_applicability : option (list ids_entity);   (* ids:entity children *)
  spec_requirements : option (list ids_property)   (* ids:property children *)
}.

Record ids_document := Document {
  doc_specifications : option (list ids_specification)
}.

(** One value of the result: [{"name": ..., "properties": {pset: {base: {}}}}].
    The innermost dictionaries are always empty, so a property set is the
    set of its base names. *)
Record entry := Entry {
  name : string;
  properties : gmap string (gset string)
}.

(** The interpreter state of [parse_ids]: the [result] dictionary and the
    lines printed so far. *)
Record state := State {
  result : gmap string entry;
  printed : list string
}.

Definition entity_key (e : ids_entity) : string :=
  let name := default "" (ent_name e) in
  let predefined := default "" (ent_predefinedType e) in
  if truthy predefined then name +:+ "." +:+ predefined else name.

Definition duplicate_warning (entity_key : string) : string :=
  "WARNING: Duplicate entity key '" +:+ entity_key +:+ "' found".

(** Body of [for prop in requirements.findall("ids:property", NS)], acting
    on [result[entity_key]["properties"]]. *)
Definition add_property (props : gmap string (gset string)) (p : ids_property)
    : gmap string (gset string) :=
  let prop_set := default "" (prop_propertySet p) in
  let base_name := default "" (prop_baseName p) in
  if truthy prop_set then
    let props1 :=
      match props !! prop_set with
      | None => <[prop_set := ∅]> props
      | Some _ => props
      end in
    if truthy base_name then
      match props1 !! prop_set with
      | Some bases =>
          if decide (base_name ∈ bases) then props1
          else <[prop_set := {[base_name]} ∪ bases]> props1
      | None => props1
      end
    else props1
  else props.

Definition add_properties (reqs : list ids_property) (e : entry) : entry :=
  {| name := name e; properties := foldl add_property (properties e) reqs |}.

(** Body of [for entity in applicability.findall("ids:entity", NS)]. *)
Definition process_entity (spec_name : string) (reqs : list ids_property)
    (st : state) (e : ids_entity) : state :=
  let entity_key := entity_key e in
  let printed1 :=
    match result st !! entity_key with
    | Some _ => printed st ++ [duplicate_warning entity_key]
    | None => printed st
    end in
  let result1 :=
    match result st !! entity_key with
    | None => <[entity_key := {| name := spec_name; properties := ∅ |}]> (result st)
    | Some _ => result st
    end in
  {| result := alter (add_properties reqs) entity_key result1;
     printed := printed1 |}.

(** Body of [for spec in specifications.findall("ids:specification", NS)]. *)
Definition process_specification (st : state) (spec : ids_specification) : state :=
  let spec_name := default "" (spec_name_attr spec) in
  match spec_applicability spec, spec_requirements spec with
  | Some applicability, Some requirements =>
      foldl (process_entity spec_name requirements) st applicability
  | _, _ => st
  end.

Definition parse_ids (doc : ids_document) : state :=
  let st0 := {| result := ∅; printed := [] |} in
  match doc_specifications doc with
  | None => st0
  | Some specifications => foldl process_specification st0 specifications
  end.

(** Example documents: two specifications that both apply to [IFCDOOR],
    and one that applies to walls with and without a predefined type. *)
Definition door_spec_1 : ids_specification :=
  Specification (Some "Doors A") (Some [Entity (Some "IFCDOOR") None])
    (Some [Property (Some "Pset_DoorCommon") (Some "FireRating")]).

Definition door_spec_2 : ids_specification :=
  Specification (Some "Doors B") (Some [Entity (Some "IFCDOOR") None])
    (Some [Property (Some "Pset_Extra") (Some "Acoustic")]).

Definition wall_spec : ids_specification :=
  Specification (Some "Walls")
    (Some [Entity (Some "IFCWALL") (Some "SOLIDWALL"); Entity (Some "IFCWALL") None])
    (Some [Property (Some "Pset_WallCommon") (Some "LoadBearing")]).

Definition door_doc : ids_document := Document (Some [door_spec_1]).

Definition wall_doc : ids_document := Document (Some [wall_spec]).

(** *** The work list of a document

    The applicability entities [parse_ids] works through, in document
    order, each with the name and the property requirements of its
    specification; specifications without an applicability or a
    requirements section contribute nothing. *)
Definition work_item : Type := string * list ids_property * ids_entity.

Definition specification_entities (spec : ids_specification) : list work_item :=
  match spec_applicability spec, spec_requirements spec with
  | Some applicability, Some requirements =>
      (fun e => (default "" (spec_name_attr spec), requirements, e)) <$> applicability
  | _, _ => []
  end.

Definition document_entities (doc : ids_document) : list work_item :=
  match doc_specifications doc with
  | None => []
  | Some specifications => concat (specification_entities <$> specifications)
  end.

Definition process_item (st : state) (t : work_item) : state :=
  process_entity (fst (fst t)) (snd (fst t)) st (snd t).

(** The first work item whose entity has the key [k]. *)
Fixpoint first_with_key (k : string) (l : list work_item) : option work_item :=
  match l with
  | [] => None
  | t :: l' => if decide (entity_key (snd t) = k) then Some t else first_with_key k l'
  end.

(** [b in props[ps]] and [ps in props], for a properties dictionary. *)
Definition has_base (props : gmap string (gset string)) (ps b : string) : Prop :=
  exists bases, props !! ps = Some bases /\ b ∈ bases.

Definition has_pset (props : gmap string (gset string)) (ps : string) : Prop :=
  is_Some (props !! ps).

(** What a property requirement asks for: a property set, when it names
    one, and a base name in it, when it names one too. *)
Definition asks_pset (p : ids_property) (ps : string) : Prop :=
  default "" (prop_propertySet p) = ps /\ ps <> "".

Definition asks_base (p : ids_property) (ps b : string) : Prop :=
  asks_pset p ps /\ default "" (prop_baseName p) = b /\ b <> "".

Definition doors_doc : ids_document := Document (Some [door_spec_1; door_spec_2]).

(** *** [get_namespaces] *)

(** [s.split(sep)[0]] for a one-character separator: the part before its
    first occurrence, all of [s] when there is none. *)
Fixpoint str_before (sep : ascii) (s : string) : string :=
  match s with
  | EmptyString => EmptyString
  | String c s' => if Ascii.eqb c sep then EmptyString else String c (str_before sep s')
  end.

(** [s.strip(ch)] for a one-character set. *)
Fixpoint str_lstrip_char (ch : ascii) (s : string) : string :=
  match s with
  | EmptyString => EmptyString
  | String c s' => if Ascii.eqb c ch then str_lstrip_char ch s' else s
  end.

Fixpoint str_rstrip_char (ch : ascii) (s : string) : string :=
  match s with
  | EmptyString => EmptyString
  | String c s' =>
      match str_rstrip_char ch s' with
      | EmptyString => if Ascii.eqb c ch then EmptyString else String c EmptyString
      | r => String c r
      end
  end.

Definition str_strip_char (ch : ascii) (s : string) : string :=
  str_rstrip_char ch (str_lstrip_char ch s).

Fixpoint str_mem (ch : ascii) (s : string) : bool :=
  match s with
  | EmptyString => false
  | String c s' => (Ascii.eqb c ch || str_mem ch s')%bool
  end.

(** The ["ids"] entry of the dictionary [get_namespaces] returns for a root
    element with the given tag. *)
Definition get_namespaces (tag : string) : string :=
  if String.prefix "{" tag then str_strip_char "{" (str_before "}" tag)
  else "".

End IdsParser.

(** ** The match panel ([SIMPLE_OT_match_ids]) *)

Module MatchPanel.

Record SimpleTreeNode := TreeNode {
  name : string;
  node_type : string;
  level : Z;
  expanded : bool;
  has_children : bool
}.

(** The scene properties the operator reads and writes. *)
Record scene := Scene {
  simple_tree_nodes : list SimpleTreeNode;
  simple_selected_index : Z;
  simple_match_results : string;
  simple_has_match_results : bool;
  simple_matched_entity : string
}.

Inductive report_level := INFO | ERROR.
Inductive status := FINISHED | CANCELLED.

Record outcome := Outcome {
  out_scene : scene;
  out_report : report_level * string;
  out_status : status
}.

(** [node.level == 0 and node.node_type == "Entity"] *)
Definition is_level0_entity (node : SimpleTreeNode) : bool :=
  ((level node =? 0)%Z && String.eqb (node_type node) "Entity")%bool.

(** [for i in range(selected_idx - 1, -1, -1)]: [n] is [i + 1].  The
    indices visited lie below [selected_idx], which [execute] has checked
    to be in range. *)
Fixpoint find_parent_from (nodes : list SimpleTreeNode) (n : nat) : option string :=
  match n with
  | O => None
  | S i =>
      match nodes !! i with
      | Some node =>
          if is_level0_entity node
          then Some (name node)
          else find_parent_from nodes i
      | None => None
      end
  end.

Definition _find_parent_entity (sc : scene) (selected_idx : Z) : option string :=
  find_parent_from (simple_tree_nodes sc) (Z.to_nat selected_idx).

Definition store_result (sc : scene) (ifc_class : string) : scene :=
  {| simple_tree_nodes := simple_tree_nodes sc;
     simple_selected_index := simple_selected_index sc;
     simple_match_results := ifc_class;
     simple_has_match_results := true;
     simple_matched_entity := ifc_class |}.

Definition execute (sc : scene) : outcome :=
  let selected_idx := simple_selected_index sc in
  if ((selected_idx <? 0)%Z || (Z.of_nat (length (simple_tree_nodes sc)) <=? selected_idx)%Z)%bool
  then Outcome sc (ERROR, "Please select an element from the tree first") CANCELLED
  else
    match simple_tree_nodes sc !! Z.to_nat selected_idx with
    | None => Outcome sc (ERROR, "Please select an element from the tree first") CANCELLED
    | Some selected_node =>
        if String.eqb (node_type selected_node) "Entity" then
          let ifc_class := name selected_node in
          Outcome (store_result sc ifc_class)
                  (INFO, "Selected IFC class: " +:+ ifc_class) FINISHED
        else if (String.eqb (node_type selected_node) "PropertySet"
                 || String.eqb (node_type selected_node) "Property")%bool then
          match _find_parent_entity sc selected_idx with
          | Some parent_entity =>
              if truthy parent_entity then
                Outcome (store_result sc parent_entity)
                        (INFO, "Selected element belongs to IFC class: " +:+ parent_entity)
                        FINISHED
              else Outcome sc (ERROR, "Could not determine parent IFC class") CANCELLED
          | None => Outcome sc (ERROR, "Could not determine parent IFC class") CANCELLED
          end
        else Outcome sc (ERROR, "Unknown element type selected") CANCELLED
    end.

(** [parent], at index [j], is the nearest level-0 Entity node before
    index [i]. *)
Definition nearest_entity (nodes : list SimpleTreeNode) (i j : nat)
    (parent : SimpleTreeNode) : Prop :=
  (j < i)%nat /\ nodes !! j = Some parent /\ is_level0_entity parent = true /\
  forall k node, (j < k < i)%nat -> nodes !! k = Some node ->
    is_level0_entity node = false.

Definition no_entity_before (nodes : list SimpleTreeNode) (i : nat) : Prop :=
  forall k node, (k < i)%nat -> nodes !! k = Some node ->
    is_level0_entity node = false.

(** Example trees: the one of the specification, and one whose entity has
    an empty key (an applicability entity without a name). *)
Definition wall_tree : list SimpleTreeNode :=
  [ TreeNode "IFCWALL" "Entity" 0 false true;
    TreeNode "Pset_WallCommon" "PropertySet" 1 false true;
    TreeNode "LoadBearing" "Property" 2 false false ].

Definition unnamed_tree : list SimpleTreeNode :=
  [ TreeNode "" "Entity" 0 false true;
    TreeNode "Pset_WallCommon" "PropertySet" 1 false false ].

Definition select (nodes : list SimpleTreeNode) (i : Z) : scene :=
  Scene nodes i "" false "".

(** *** [SIMPLE_OT_toggle_node] *)

Definition toggle_expanded (node : SimpleTreeNode) : SimpleTreeNode :=
  if has_children node
  then TreeNode (name node) (node_type node) (level node)
                (negb (expanded node)) (has_children node)
  else node.

(** [execute] of the operator with the given [node_index]; it always
    returns [FINISHED]. *)
Definition toggle_node (node_index : Z) (sc : scene) : scene :=
  if ((0 <=? node_index)%Z && (node_index <? Z.of_nat (length (simple_tree_nodes sc)))%Z)%bool
  then
    {| simple_tree_nodes :=
         alter toggle_expanded (Z.to_nat node_index) (simple_tree_nodes sc);
       simple_selected_index := node_index;
       simple_match_results := simple_match_results sc;
       simple_has_match_results := simple_has_match_results sc;
       simple_matched_entity := simple_matched_entity sc |}
  else sc.

(** *** The tree [SIMPLE_OT_analyze_ids] builds

    The parsed data in iteration order: under an entity key the
    ["properties"] dictionary, [None] when the entity data has none; under
    a property-set name the names of its properties, or a value that is no
    dictionary. *)
Inductive pset_data :=
  | PsetDict (props : list string)
  | PsetOther.

Definition entity_data : Type := option (list (string * pset_data)).

(** [isinstance(pset_data, dict) and pset_data] *)
Definition pset_has_children (d : pset_data) : bool :=
  match d with
  | PsetDict (_ :: _) => true
  | _ => false
  end.

Definition property_nodes (d : pset_data) : list SimpleTreeNode :=
  match d with
  | PsetDict props => (fun prop_name => TreeNode prop_name "Property" 2 false false) <$> props
  | PsetOther => []
  end.

Definition pset_nodes (item : string * pset_data) : list SimpleTreeNode :=
  TreeNode (fst item) "PropertySet" 1 false (pset_has_children (snd item))
    :: property_nodes (snd item).

(** The nodes added for one [entity_key, entity_data] item. *)
Definition entity_nodes (item : string * entity_data) : list SimpleTreeNode :=
  match snd item with
  | Some ((_ :: _) as properties) =>
      TreeNode (fst item) "Entity" 0 false true :: mjoin (pset_nodes <$> properties)
  | _ => [TreeNode (fst item) "Entity" 0 false false]
  end.

Definition build_tree (json_data : list (string * entity_data)) : list SimpleTreeNode :=
  mjoin (entity_nodes <$> json_data).

(** The nodes below an entity node are property sets and properties. *)
Definition below_entity (node : SimpleTreeNode) : Prop :=
  is_level0_entity node = false /\
  (node_type node = "PropertySet" \/ node_type node = "Property").

(** *** [SIMPLE_OT_analyze_ids] *)








(** The scene with the node at index [i] selected. *)
Definition select_index (sc : scene) (i : Z) : scene :=
  {| simple_tree_nodes := simple_tree_nodes sc;
     simple_selected_index := i;
     simple_match_results := simple_match_results sc;
     simple_has_match_results := simple_has_match_results sc;
     simple_matched_entity := simple_matched_entity sc |}.

(** Example data: a wall with one property set of two properties, and a
    door without properties. *)
Definition example_data : list (string * entity_data) :=
  [ ("IFCWALL", Some [("Pset_WallCommon", PsetDict ["LoadBearing"; "IsExternal"])]);
    ("IFCDOOR", None) ].

End MatchPanel.

(** ** The patch engine ([IFC_fix_properties.py]) *)

Module PatchEngine.

Inductive property_class :=
  | IfcPropertySingleValue
  | OtherProperty (cls : string).

(** An [IfcProperty] instance: [NominalValue] is [None] when the attribute
    is unset, otherwise it carries the [wrappedValue]. *)
Record property := Property {
  Name : string;
  is_a : property_class;
  NominalValue : option pyval
}.

(** The dictionary under a property name in [properties_values]. *)
Record property_config := PropertyConfig {
  replace_name : option string;
  replace_values : option (list (string * pyval))
}.

(** A value of the [properties_values] dictionary of one property set:
    JSON [null], a dictionary, or anything else (the property set's own
    ["replace_name"] string lives in the same dictionary). *)
Inductive config_entry :=
  | CfgNull
  | CfgOther
  | CfgDict (c : property_config).

Inductive outcome := Returned | Raised (e : exn).

(** [for old_value, new_value in ...['replace_values'].items()].
    [property_value] was read once before the loop; [stored] is the
    current [NominalValue.wrappedValue]. *)
Fixpoint replace_loop (property_value : pyval) (items : list (string * pyval))
    (stored : pyval) : pyval * outcome :=
  match items with
  | [] => (stored, Returned)
  | (old_value, new_value) :: rest =>
      match construct_like property_value (PStr old_value) with
      | inl e => (stored, Raised e)
      | inr old_value =>
          if py_eqb property_value old_value then
            match construct_like property_value new_value with
            | inl e => (stored, Raised e)
            | inr new_value => replace_loop property_value rest new_value
            end
          else replace_loop property_value rest stored
      end
  end.

Definition set_Name (p : property) (n : string) : property :=
  {| Name := n; is_a := is_a p; NominalValue := NominalValue p |}.

Definition set_wrappedValue (p : property) (v : pyval) : property :=
  {| Name := Name p; is_a := is_a p; NominalValue := Some v |}.

(** The second [if] of the function, run on the (possibly renamed)
    property with the name captured at entry. *)
Definition replace_values_step (property_name : string) (p : property)
    (properties_values : gmap string config_entry) : property * outcome :=
  match is_a p, NominalValue p with
  | IfcPropertySingleValue, Some property_value =>
      match properties_values !! property_name with
      | None => (p, Returned)
      | Some (CfgDict c) =>
          match replace_values c with
          | None => (p, Returned)
          | Some items =>
              let (stored, o) := replace_loop property_value items property_value in
              (set_wrappedValue p stored, o)
          end
      | Some _ => (p, Raised AttributeError)
      end
  | _, _ => (p, Returned)
  end.

Definition handle_property_single_value (p : property)
    (properties_values : gmap string config_entry) : property * outcome :=
  let property_name := Name p in
  match properties_values !! property_name with
  | Some CfgOther => (p, Raised AttributeError)
  | Some (CfgDict c) =>
      match replace_name c with
      | Some new_name =>
          replace_values_step property_name (set_Name p new_name) properties_values
      | None => replace_values_step property_name p properties_values
      end
  | _ => replace_values_step property_name p properties_values
  end.

(** The path [process_ifc_file] hands to [ifc_model.write]. *)
Definition output_file (ifc_file : string) : string :=
  str_replace ifc_file ".ifc" "_fixed.ifc".

(** The stem of a path [stem ++ ".ifc"] in which [".ifc"] occurs at the end
    only. *)
Fixpoint ifc_only_at_end (stem : string) : bool :=
  match stem with
  | EmptyString => true
  | String _ stem' =>
      (negb (String.prefix ".ifc" (stem +:+ ".ifc")) && ifc_only_at_end stem')%bool
  end.

(** The property after the renaming step, under the configuration [c] found
    for its name. *)
Definition renamed (p : property) (c : property_config) : property :=
  match replace_name c with
  | Some new_name => set_Name p new_name
  | None => p
  end.

(** Example configuration: the property [Old] is renamed to [New] and its
    value 2 becomes 3; the entry under [New] asks for 9 instead. *)
Definition rename_config : gmap string config_entry :=
  {[ "Old" := CfgDict (PropertyConfig (Some "New") (Some [("2", PStr "3")]));
     "New" := CfgDict (PropertyConfig None (Some [("2", PStr "9")])) ]}.

Definition old_property : property :=
  Property "Old" IfcPropertySingleValue (Some (PInt 2)).

(** *** [process_ifc_file] on a model

    The IFC model is the store of its property sets, by instance id, and
    the instances [by_type] returns for a type name.  Property sets are
    shared: several instances can be related to the same one, and the
    patch updates it in place. *)

Record property_set := PropertySet {
  pset_Name : option string;               (* [None]: the Name is unset *)
  HasProperties : option (list property)   (* [None]: no such attribute *)
}.

Inductive relationship :=
  | IfcRelDefinesByProperties (RelatingPropertyDefinition : nat)
  | OtherRelationship.

Record instance := Instance {
  IsDefinedBy : option (list relationship)   (* [None]: no such attribute *)
}.

Record ifc_model := IfcModel {
  by_type : gmap string (list instance);   (* no entry: not a type of the schema *)
  psets : gmap nat property_set
}.

(** A value of the dictionary configured for one property set: its own
    ["replace_name"] string, or the entry of a property. *)
Inductive pset_entry :=
  | EntryNull
  | EntryStr (s : string)
  | EntryOther
  | EntryDict (c : property_config).

Definition to_config_entry (e : pset_entry) : config_entry :=
  match e with
  | EntryNull => CfgNull
  | EntryStr _ | EntryOther => CfgOther
  | EntryDict c => CfgDict c
  end.

(** [json_config[ifc_type]] *)
Record type_config := TypeConfig {
  instances : Z;
  properties_values : gmap string (gmap string pset_entry)
}.

Inductive process_error :=
  | NotInSchema (ifc_type : string)   (* [by_type] on an unknown type name *)
  | NoHasProperties                   (* [property_set.HasProperties] is missing *)
  | BadReplaceName                    (* a Name is assigned something that is no string *)
  | Handler (e : exn).                (* [handle_property_single_value] raised *)

(** [l[:n]] *)
Definition py_slice_to {A} (n : Z) (l : list A) : list A :=
  if (0 <=? n)%Z then take (Z.to_nat n) l
  else take (Z.to_nat (Z.of_nat (length l) + n)) l.

(** [for property_single_value in property_set.HasProperties: handle(...)] *)
Fixpoint handle_properties (props : list property)
    (properties_values : gmap string config_entry) : process_error + list property :=
  match props with
  | [] => inr []
  | p :: rest =>
      match handle_property_single_value p properties_values with
      | (_, Raised e) => inl (Handler e)
      | (p', Returned) =>
          match handle_properties rest properties_values with
          | inl e => inl e
          | inr rest' => inr (p' :: rest')
          end
      end
  end.

(** What the body of [if rel_defines.is_a("IfcRelDefinesByProperties")]
    does to the property set. *)
Definition patch_property_set (cfg : type_config) (ps : property_set)
    : process_error + property_set :=
  match pset_Name ps with
  | None => inr ps
  | Some property_set_name =>
      match properties_values cfg !! property_set_name with
      | None => inr ps
      | Some d =>
          let renamed :=
            match d !! "replace_name" with
            | None | Some EntryNull => inr (pset_Name ps)
            | Some (EntryStr new_name) => inr (Some new_name)
            | Some _ => inl BadReplaceName
            end in
          match renamed with
          | inl e => inl e
          | inr name' =>
              match HasProperties ps with
              | None => inl NoHasProperties
              | Some props =>
                  match handle_properties props (to_config_entry <$> d) with
                  | inl e => inl e
                  | inr props' => inr (PropertySet name' (Some props'))
                  end
              end
          end
      end
  end.

(** Loop body of [for rel_defines in defined_by]; a relationship to an id
    that is not in the store does not occur in a model and is passed
    over. *)
Definition process_relationship (cfg : type_config)
    (st : process_error + gmap nat property_set) (r : relationship)
    : process_error + gmap nat property_set :=
  match st, r with
  | inl e, _ => inl e
  | inr store, OtherRelationship => inr store
  | inr store, IfcRelDefinesByProperties id =>
      match store !! id with
      | None => inr store
      | Some ps =>
          match patch_property_set cfg ps with
          | inl e => inl e
          | inr ps' => inr (<[id := ps']> store)
          end
      end
  end.

(** Loop body of [for instance in instances[...]]. *)
Definition process_instance (cfg : type_config)
    (st : process_error + gmap nat property_set) (i : instance)
    : process_error + gmap nat property_set :=
  match IsDefinedBy i with
  | None => st
  | Some defined_by => foldl (process_relationship cfg) st defined_by
  end.

(** Loop body of [for ifc_type, config in json_config.items()];
    [capped] tells whether the instances are sliced by
    [config['instances']] (the script) or not (the panels). *)
Definition process_type (capped : bool) (m : ifc_model)
    (st : process_error + gmap nat property_set) (item : string * type_config)
    : process_error + gmap nat property_set :=
  let (ifc_type, config) := item in
  match st with
  | inl e => inl e
  | inr store =>
      match by_type m !! ifc_type with
      | None => inl (NotInSchema ifc_type)
      | Some found =>
          foldl (process_instance config) (inr store)
                (if capped then py_slice_to (instances config) found else found)
      end
  end.

(** The model [process_ifc_file] serializes and the path it writes to, or
    the exception that leaves nothing written. *)
Definition process_ifc_file_with (capped : bool) (ifc_file : string) (m : ifc_model)
    (json_config : list (string * type_config)) : process_error + string * ifc_model :=
  match foldl (process_type capped m) (inr (psets m)) json_config with
  | inl e => inl e
  | inr store => inr (output_file ifc_file, IfcModel (by_type m) store)
  end.

(** [IFC_fix_properties.py] and [ids_patch_panel_main_button_active.py]. *)
Definition process_ifc_file := process_ifc_file_with true.

Definition process_ifc_file_panel := process_ifc_file_with false.


(** Two versions of a property set with the same properties up to their
    names and literals. *)
Definition same_shape (ps ps' : property_set) : Prop :=
  match HasProperties ps, HasProperties ps' with
  | Some props, Some props' => Forall2 (fun p p' => is_a p = is_a p') props props'
  | None, None => True
  | _, _ => False
  end.

(** A store with the property sets of [store0], each in the same shape. *)
Definition keeps_shape (store0 store : gmap nat property_set) : Prop :=
  dom store = dom store0 /\
  forall id ps, store0 !! id = Some ps ->
    exists ps', store !! id = Some ps' /\ same_shape ps ps'.



(** Example model: two walls related to the same property set. *)
Definition shared_pset : property_set :=
  PropertySet (Some "Pset_WallCommon")
    (Some [Property "Storey" IfcPropertySingleValue (Some (PInt 2))]).

Definition shared_model : ifc_model :=
  IfcModel {[ "IfcWall" := [ Instance (Some [IfcRelDefinesByProperties 7]);
                             Instance (Some [IfcRelDefinesByProperties 7]) ];
              "IfcDoor" := [] ]}
           {[ 7%nat := shared_pset;
              8%nat := PropertySet (Some "Pset_DoorCommon") (Some []) ]}.

Definition wall_config (cap : Z) : type_config :=
  TypeConfig cap
    {[ "Pset_WallCommon" :=
         {[ "replace_name" := EntryStr "Pset_WallFixed";
            "Storey" := EntryDict (PropertyConfig None (Some [("2", PStr "3")])) ]} ]}.

Definition wall_fix (cap : Z) : list (string * type_config) :=
  [ ("IfcWall", wall_config cap) ].

End PatchEngine.

(** ** The analyzer recipe ([ifc2ids_recipe.py]) *)

Module Analyzer.

(** *** Analysis storage *)

(** [property_stats[pset]['properties'][prop]] *)
Record property_info := PropertyInfo {
  pi_values : gset string;
  pi_data_types : gset string;
  pi_count : Z
}.

(** [property_stats[pset]]; the ['elements'] set is given in its iteration
    order, the ['properties'] dictionary in insertion order. *)
Record pset_info := PsetInfo {
  ps_elements : list string;
  ps_properties : list (string * property_info);
  ps_count : Z
}.

(** [element_stats[element_type]]; the sets are given in iteration order. *)
Record element_stat := ElementStat {
  es_count : Z;
  es_properties : list string;
  es_materials : list string;
  es_classifications : list string
}.

(** *** The IDS object model built by the recipe *)

Record Entity := MkEntity { entity_name : string }.

Inductive requirement :=
  | Attribute (name cardinality instructions : string)
  | Property (baseName propertySet cardinality instructions : string).

Record Specification := MkSpecification {
  name : string;
  description : string;
  instructions : string;
  applicability : list Entity;
  requirements : list requirement
}.

(** *** Python built-ins used by the generation pass *)

(** [sorted(l, key=key, reverse=True)]: descending and stable, elements
    with equal keys keep their order. *)
Fixpoint insert_desc {A} (key : A -> Z) (x : A) (l : list A) : list A :=
  match l with
  | [] => [x]
  | y :: l' => if (key y <=? key x)%Z then x :: y :: l' else y :: insert_desc key x l'
  end.

Fixpoint sorted_desc {A} (key : A -> Z) (l : list A) : list A :=
  match l with
  | [] => []
  | x :: l' => insert_desc key x (sorted_desc key l')
  end.

(** [max(l, key=key)] on a non-empty iterable: the first maximal element. *)
Fixpoint max_from {A} (key : A -> Z) (best : A) (l : list A) : A :=
  match l with
  | [] => best
  | x :: l' => max_from key (if (key best <? key x)%Z then x else best) l'
  end.

(** [d.get(k)] on a dictionary kept as an association list. *)
Fixpoint assoc_get {V} (d : list (string * V)) (k : string) : option V :=
  match d with
  | [] => None
  | (k', v) :: d' => if String.eqb k k' then Some v else assoc_get d' k
  end.

(** The order of a list sorted by [key] with [reverse=True]. *)
Definition descending {A} (key : A -> Z) (a b : A) : Prop := (key b <= key a)%Z.

(** [top] holds [n] elements of [l] with the highest keys (all of [l] when
    it has fewer than [n] elements). *)
Definition top_n {A} (key : A -> Z) (n : nat) (l top : list A) : Prop :=
  exists rest,
    l ≡ₚ top ++ rest /\
    length top = Nat.min n (length l) /\
    forall x y, x ∈ top -> y ∈ rest -> (key y <= key x)%Z.

(** *** Generation pass *)

Definition structural_types : list string :=
  ["IFCWALL"; "IFCSLAB"; "IFCBEAM"; "IFCCOLUMN"].

(** [self.property_stats.get(x, {}).get('count', 0)] *)
Definition pset_usage (property_stats : list (string * pset_info)) (x : string) : Z :=
  match assoc_get property_stats x with
  | Some info => ps_count info
  | None => 0
  end.

(** Loop body of [_create_element_specifications]; [None] is [continue]. *)
Definition element_specification (include_geometry : bool)
    (property_stats : list (string * pset_info))
    (item : string * element_stat) : option Specification :=
  let (element_type, stats) := item in
  if (es_count stats <? 2)%Z then None
  else
    let geometry :=
      if (include_geometry && bool_decide (element_type ∈ structural_types))%bool
      then [Attribute "Representation" "required"
              (element_type +:+ " must have geometric representation")]
      else [] in
    let common :=
      match es_properties stats with
      | [] => []
      | x :: rest =>
          let common_pset := max_from (pset_usage property_stats) x rest in
          [Property "*" common_pset "optional"
             ("Properties from " +:+ common_pset +:+ " should be provided where applicable")]
      end in
    Some {| name := element_type +:+ " Requirements";
            description := "Requirements for " +:+ element_type +:+ " elements (found "
                             +:+ str_of_int (es_count stats) +:+ " instances)";
            instructions := "All " +:+ element_type +:+ " elements must meet these requirements";
            applicability := [MkEntity element_type];
            requirements := geometry ++ common |}.

Definition _create_element_specifications (include_geometry : bool)
    (element_stats : list (string * element_stat))
    (property_stats : list (string * pset_info)) : list Specification :=
  omap (element_specification include_geometry property_stats) element_stats.

(** ["optional" if prop_info['count'] < pset_info['count'] * 0.5 else
    "required"], the product taken in the rationals: halving a count is
    exact in binary floating point for every count below 2^53. *)
Definition cardinality_of (prop_count pset_count : Z) : string :=
  if Qlt_le_dec (inject_Z prop_count) (inject_Z pset_count * (1 # 2))%Q
  then "optional" else "required".

(** Inner loop body of [_create_property_specifications]. *)
Definition property_requirement (pset_name : string) (pset_count : Z)
    (item : string * property_info) : option requirement :=
  let (prop_name, prop_info) := item in
  if (2 <=? pi_count prop_info)%Z then
    Some (Property prop_name pset_name
            (cardinality_of (pi_count prop_info) pset_count)
            (prop_name +:+ " should be consistently defined"))
  else None.

Definition critical_props (pset_info : pset_info) : list (string * property_info) :=
  take 3 (sorted_desc (fun x => pi_count (snd x)) (ps_properties pset_info)).

(** Outer loop body; [None] when the iteration appends nothing. *)
Definition pset_specification (item : string * pset_info) : option Specification :=
  let (pset_name, pset_info) := item in
  if (ps_count pset_info <? 3)%Z then None
  else
    let reqs := omap (property_requirement pset_name (ps_count pset_info))
                     (critical_props pset_info) in
    match reqs with
    | [] => None
    | _ :: _ =>
        Some {| name := pset_name +:+ " Properties";
                description := "Property requirements for " +:+ pset_name;
                instructions := "Elements with " +:+ pset_name
                                  +:+ " must have consistent property definitions";
                applicability := MkEntity <$> ps_elements pset_info;
                requirements := reqs |}
    end.

Definition common_psets (property_stats : list (string * pset_info))
    : list (string * pset_info) :=
  take 5 (sorted_desc (fun x => ps_count (snd x)) property_stats).

Definition _create_property_specifications
    (property_stats : list (string * pset_info)) : list Specification :=
  omap pset_specification (common_psets property_stats).

(** The [specifications] of [_create_ids_specification]. *)
Definition _create_ids_specification (include_geometry : bool)
    (element_stats : list (string * element_stat))
    (property_stats : list (string * pset_info)) : list Specification :=
  _create_element_specifications include_geometry element_stats property_stats
    ++ _create_property_specifications property_stats.

(** *** Entry points *)

(** The keyword arguments handed to [Patcher]. *)
Record patcher_args := PatcherArgs {
  output_path : pyval;
  include_geometry : bool;
  specification_name : pyval
}.

(** Argument parsing of [execute(args)], on [args.get("arguments", [])]. *)
Definition execute (arguments : list pyval) : patcher_args :=
  {| output_path :=
       if (0 <? length arguments)%nat then nth 0 arguments PNone else PStr "output.ids";
     include_geometry :=
       if (1 <? length arguments)%nat then py_bool (nth 1 arguments PNone) else false;
     specification_name :=
       if (2 <? length arguments)%nat then nth 2 arguments PNone
       else PStr "Generated from IFC" |}.

(** Argument parsing of the [__main__] block on [sys.argv]; [None] is the
    usage message followed by [sys.exit(1)]. *)
Definition main (argv : list string) : option (string * patcher_args) :=
  if (length argv <? 2)%nat then None
  else
    Some (nth 1 argv "",
          {| output_path :=
               PStr (if (2 <? length argv)%nat then nth 2 argv "" else "output.ids");
             include_geometry :=
               if (3 <? length argv)%nat
               then String.eqb (str_lower (nth 3 argv "")) "true" else false;
             specification_name :=
               PStr (if (4 <? length argv)%nat then nth 4 argv ""
                     else "Generated from IFC") |}).

(** Example statistics: a property set used 10 times with properties
    counted 6, 4 and 1 times, and a property set used twice. *)
Definition wall_common : pset_info :=
  PsetInfo ["IfcWall"]
    [ ("LoadBearing", PropertyInfo ∅ ∅ 4);
      ("IsExternal", PropertyInfo ∅ ∅ 6);
      ("Reference", PropertyInfo ∅ ∅ 1) ] 10.

Definition example_property_stats : list (string * pset_info) :=
  [ ("Pset_Rare", PsetInfo ["IfcDoor"] [("FireRating", PropertyInfo ∅ ∅ 2)] 2);
    ("Pset_WallCommon", wall_common) ].

Definition example_element_stats : list (string * element_stat) :=
  [ ("IfcDoor", ElementStat 1 ["Pset_Rare"] [] []);
    ("IfcWall", ElementStat 10 ["Pset_WallCommon"] [] []) ].

(** *** The analysis pass

    What the analysis reads off a product: its type name, what
    [get_psets] and [get_materials] return ([None] when the call raises),
    and its associations.  A property value is [None] or is given by its
    [str(...)] and the name of its type. *)
Record material := Material {
  material_Name : option string;
  material_is_a : string
}.

Inductive association :=
  | IfcRelAssociatesClassification (classification_Name : option string)
  | OtherAssociation.

Record product := Product {
  product_is_a : string;
  get_psets : option (list (string * option (list (string * option (string * string)))));
  get_materials : option (list material);
  HasAssociations : list association
}.

(** [self.element_stats[element_type]] during the analysis, with its sets. *)
Record element_info := ElementInfo {
  ei_count : Z;
  ei_properties : gset string;
  ei_materials : gset string;
  ei_classifications : gset string
}.

(** [self.property_stats[pset_key]] during the analysis. *)
Record pset_stat := PsetStat {
  pst_elements : gset string;
  pst_properties : list (string * property_info);
  pst_count : Z
}.

Record material_info := MaterialInfo {
  mi_elements : gset string;
  mi_count : Z;
  mi_type : string
}.

Record classification_info := ClassificationInfo {
  ci_elements : gset string;
  ci_count : Z
}.

Inductive log_entry :=
  | CouldNotAnalyzeProperties
  | CouldNotAnalyzeMaterials.

(** The analysis storage of a [Patcher] and the warnings logged. *)
Record patcher := Patcher {
  element_stats : list (string * element_info);
  property_stats : list (string * pset_stat);
  material_stats : list (string * material_info);
  classification_stats : list (string * classification_info);
  logged : list log_entry
}.

(** [d[k] = f(d[k])] for a key of the dictionary. *)
Fixpoint dict_alter {V} (f : V -> V) (k : string) (d : list (string * V))
    : list (string * V) :=
  match d with
  | [] => []
  | (k', v) :: d' =>
      if String.eqb k k' then (k', f v) :: d' else (k', v) :: dict_alter f k d'
  end.

(** [if k not in d: d[k] = v] *)
Definition dict_setdefault {V} (k : string) (v : V) (d : list (string * V))
    : list (string * V) :=
  match assoc_get d k with
  | Some _ => d
  | None => d ++ [(k, v)]
  end.

(** Body of [for prop_name, prop_value in properties.items()]. *)
Definition analyze_property (properties : list (string * property_info))
    (item : string * option (string * string)) : list (string * property_info) :=
  let (prop_name, prop_value) := item in
  dict_alter
    (fun prop_info =>
       match prop_value with
       | Some (value_str, type_name) =>
           PropertyInfo ({[ value_str ]} ∪ pi_values prop_info)
                        ({[ type_name ]} ∪ pi_data_types prop_info)
                        (pi_count prop_info + 1)
       | None =>
           PropertyInfo (pi_values prop_info) (pi_data_types prop_info)
                        (pi_count prop_info + 1)
       end)
    prop_name
    (dict_setdefault prop_name (PropertyInfo ∅ ∅ 0) properties).

(** Body of [for pset_name, properties in psets.items()]. *)
Definition analyze_pset (element_type : string) (st : patcher)
    (item : string * option (list (string * option (string * string)))) : patcher :=
  let (pset_name, properties) := item in
  match properties with
  | None => st
  | Some properties =>
      {| element_stats :=
           dict_alter
             (fun e => ElementInfo (ei_count e) ({[ pset_name ]} ∪ ei_properties e)
                                   (ei_materials e) (ei_classifications e))
             element_type (element_stats st);
         property_stats :=
           dict_alter
             (fun info =>
                PsetStat ({[ element_type ]} ∪ pst_elements info)
                         (foldl analyze_property (pst_properties info) properties)
                         (pst_count info + 1))
             pset_name
             (dict_setdefault pset_name (PsetStat ∅ [] 0) (property_stats st));
         material_stats := material_stats st;
         classification_stats := classification_stats st;
         logged := logged st |}
  end.

Definition with_log (st : patcher) (e : log_entry) : patcher :=
  {| element_stats := element_stats st;
     property_stats := property_stats st;
     material_stats := material_stats st;
     classification_stats := classification_stats st;
     logged := logged st ++ [e] |}.

Definition _analyze_element_properties (element : product) (element_type : string)
    (st : patcher) : patcher :=
  match get_psets element with
  | None => with_log st CouldNotAnalyzeProperties
  | Some psets => foldl (analyze_pset element_type) st psets
  end.

(** Body of [for material in materials]. *)
Definition analyze_material (element_type : string) (st : patcher) (m : material)
    : patcher :=
  match material_Name m with
  | Some material_name =>
      if truthy material_name then
        {| element_stats :=
             dict_alter
               (fun e => ElementInfo (ei_count e) (ei_properties e)
                                     ({[ material_name ]} ∪ ei_materials e)
                                     (ei_classifications e))
               element_type (element_stats st);
           property_stats := property_stats st;
           material_stats :=
             dict_alter
               (fun info => MaterialInfo ({[ element_type ]} ∪ mi_elements info)
                                         (mi_count info + 1) (mi_type info))
               material_name
               (dict_setdefault material_name (MaterialInfo ∅ 0 (material_is_a m))
                                (material_stats st));
           classification_stats := classification_stats st;
           logged := logged st |}
      else st
  | None => st
  end.

Definition _analyze_element_materials (element : product) (element_type : string)
    (st : patcher) : patcher :=
  match get_materials element with
  | None => with_log st CouldNotAnalyzeMaterials
  | Some materials => foldl (analyze_material element_type) st materials
  end.

(** Body of [for association in element.HasAssociations]. *)
Definition analyze_association (element_type : string) (st : patcher) (a : association)
    : patcher :=
  match a with
  | IfcRelAssociatesClassification (Some class_name) =>
      if truthy class_name then
        {| element_stats :=
             dict_alter
               (fun e => ElementInfo (ei_count e) (ei_properties e) (ei_materials e)
                                     ({[ class_name ]} ∪ ei_classifications e))
               element_type (element_stats st);
           property_stats := property_stats st;
           material_stats := material_stats st;
           classification_stats :=
             dict_alter
               (fun info => ClassificationInfo ({[ element_type ]} ∪ ci_elements info)
                                               (ci_count info + 1))
               class_name
               (dict_setdefault class_name (ClassificationInfo ∅ 0)
                                (classification_stats st));
           logged := logged st |}
      else st
  | _ => st
  end.

Definition _analyze_element_classifications (element : product) (element_type : string)
    (st : patcher) : patcher :=
  foldl (analyze_association element_type) st (HasAssociations element).

(** Body of [for element in self.file.by_type("IfcProduct")]. *)
Definition analyze_element (st : patcher) (element : product) : patcher :=
  let element_type := product_is_a element in
  let counted :=
    {| element_stats :=
         dict_alter
           (fun e => ElementInfo (ei_count e + 1) (ei_properties e) (ei_materials e)
                                 (ei_classifications e))
           element_type
           (dict_setdefault element_type (ElementInfo 0 ∅ ∅ ∅) (element_stats st));
       property_stats := property_stats st;
       material_stats := material_stats st;
       classification_stats := classification_stats st;
       logged := logged st |} in
  _analyze_element_classifications element element_type
    (_analyze_element_materials element element_type
       (_analyze_element_properties element element_type counted)).

Definition _analyze_model (products : list product) : patcher :=
  foldl analyze_element (Patcher [] [] [] [] []) products.

(** *** From the analysis to the generation pass

    [iter] gives the order in which a set is iterated, which Python leaves
    open. *)
Definition generation_element_stats (iter : gset string -> list string) (st : patcher)
    : list (string * element_stat) :=
  (fun item =>
     (fst item,
      ElementStat (ei_count (snd item)) (iter (ei_properties (snd item)))
                  (iter (ei_materials (snd item)))
                  (iter (ei_classifications (snd item))))) <$> element_stats st.

Definition generation_property_stats (iter : gset string -> list string) (st : patcher)
    : list (string * pset_info) :=
  (fun item =>
     (fst item,
      PsetInfo (iter (pst_elements (snd item))) (pst_properties (snd item))
               (pst_count (snd item)))) <$> property_stats st.

(** The specifications [patch] builds for a model. *)
Definition patch_specifications (iter : gset string -> list string)
    (include_geometry : bool) (products : list product) : list Specification :=
  let st := _analyze_model products in
  _create_ids_specification include_geometry
    (generation_element_stats iter st) (generation_property_stats iter st).

(** *** The summary report *)

Record analysis_summary := AnalysisSummary {
  total_element_types : nat;
  total_elements : Z;
  property_sets_found : nat;
  materials_found : nat;
  classifications_found : nat;
  specifications_created : nat;
  element_breakdown : list (string * Z);
  top_property_sets : list (string * Z)
}.

Definition _create_summary_report (st : patcher) (specifications : list Specification)
    : analysis_summary :=
  {| total_element_types := length (element_stats st);
     total_elements := foldr Z.add 0 ((fun item => ei_count (snd item)) <$> element_stats st);
     property_sets_found := length (property_stats st);
     materials_found := length (material_stats st);
     classifications_found := length (classification_stats st);
     specifications_created := length specifications;
     element_breakdown := (fun item => (fst item, ei_count (snd item))) <$> element_stats st;
     top_property_sets :=
       (fun item => (fst item, pst_count (snd item)))
         <$> take 10 (sorted_desc (fun x => pst_count (snd x)) (property_stats st)) |}.

(** The number of products of a type. *)
Definition count_type (t : string) (products : list product) : nat :=
  length (filter (fun p => product_is_a p = t) products).

(** Example model: two walls with the same property set and a door. *)
Definition example_wall : product :=
  Product "IfcWall"
    (Some [("Pset_WallCommon",
            Some [("LoadBearing", Some ("True", "bool")); ("Reference", None)])])
    (Some [Material (Some "Concrete") "IfcMaterial"])
    [IfcRelAssociatesClassification (Some "Uniclass")].

Definition example_products : list product :=
  [ example_wall; Product "IfcDoor" None None []; example_wall ].

(** Counting the keys of a list in a dictionary, the way the analysis
    counts: a key gets an entry at its first occurrence. *)
Definition tally_step (d : list (string * Z)) (k : string) : list (string * Z) :=
  dict_alter (fun c => c + 1)%Z k (dict_setdefault k 0%Z d).

Definition tally (keys : list string) : list (string * Z) := foldl tally_step [] keys.

(** The names under which [get_psets] returned a dictionary. *)
Definition pset_names (element : product) : list string :=
  match get_psets element with
  | None => []
  | Some psets =>
      omap (fun item => match snd item with Some _ => Some (fst item) | None => None end)
           psets
  end.

(** The number of dictionaries [get_psets] returned under the name [n],
    over all products. *)
Definition count_pset (n : string) (products : list product) : nat :=
  length (filter (fun k => k = n) (products ≫= pset_names)).

(** The counts of the analysis storage, without the sets. *)
Definition type_counts (st : patcher) : list (string * Z) :=
  (fun item => (fst item, ei_count (snd item))) <$> element_stats st.

Definition pset_counts (st : patcher) : list (string * Z) :=
  (fun item => (fst item, pst_count (snd item))) <$> property_stats st.

Definition property_counts (properties : list (string * property_info))
    : list (string * Z) :=
  (fun item => (fst item, pi_count (snd item))) <$> properties.

(** The statistics of every property set are consistent: its count is not
    negative, its properties have distinct names, and each of them is
    counted at least once and at most as often as the set. *)
Definition consistent_property_stats (property_stats : list (string * pset_stat)) : Prop :=
  forall n info, assoc_get property_stats n = Some info ->
    (0 <= pst_count info)%Z /\
    NoDup (pst_properties info).*1 /\
    forall p c, assoc_get (property_counts (pst_properties info)) p = Some c ->
      (1 <= c <= pst_count info)%Z.

(** The dictionaries [get_psets] returns have distinct property names. *)
Definition distinct_property_names (element : product) : Prop :=
  forall psets n props,
    get_psets element = Some psets -> (n, Some props) ∈ psets -> NoDup props.*1.

End Analyzer.

(** ** The fetch panel ([BIM_OT_connect_ids_server]) *)

Module FetchPanel.

(** A model of the portal's list: a JSON object with string values. *)
Abbreviation model := (gmap string string).

(** What the [try] block of [_fetch_bim_portal_models] does: it returns
    the decoded list, or the request raises a
    [requests.exceptions.RequestException], or something else is raised. *)
Inductive response :=
  | Models (models : list model)
  | RequestException (e : string)
  | OtherException (e : string).

Record IDS_DomainModel_Item := Item {
  guid : string;
  name : string;
  description : string;
  domain : string;
  version : string
}.

Record scene := Scene {
  ids_fetch_server_selection : string;
  ids_fetch_domain_models : list IDS_DomainModel_Item;
  ids_fetch_server_connected : bool;
  ids_fetch_models_count : Z
}.

Inductive report_level := INFO | ERROR.
Inductive status := FINISHED | CANCELLED.

Definition mock_model (guid name description domain version : string) : model :=
  <["guid" := guid]> (<["name" := name]> (<["description" := description]>
    (<["domain" := domain]> (<["version" := version]> ∅)))).

Definition _get_mock_domain_models : list model :=
  [ mock_model "12345678-1234-1234-1234-123456789abc" "Brandschutz Hochbau 2024"
      "Brandschutzanforderungen für Hochbauprojekte" "Brandschutz" "2.1";
    mock_model "87654321-4321-4321-4321-cba987654321" "Barrierefreiheit DIN 18040"
      "Barrierefreie Gestaltung nach DIN 18040" "Barrierefreiheit" "1.5";
    mock_model "abcdef12-3456-7890-abcd-ef1234567890" "DB InfraGO Eisenbahnbrücken"
      "Deutsche Bahn Standards für Eisenbahnbrücken" "Infrastruktur" "3.0";
    mock_model "fedcba98-7654-3210-fedc-ba9876543210" "Nachhaltigkeit DGNB"
      "DGNB Nachhaltigkeitsanforderungen" "Nachhaltigkeit" "1.2" ].

Definition _fetch_bim_portal_models (r : response) : list model :=
  match r with
  | Models models => models
  | RequestException _ => _get_mock_domain_models
  | OtherException _ => _get_mock_domain_models
  end.

(** Loop body of [for model in domain_models]. *)
Definition model_item (m : model) : IDS_DomainModel_Item :=
  {| guid := default (default "" (m !! "id")) (m !! "guid");
     name := default "Unbekanntes Modell" (m !! "name");
     description := default "" (m !! "description");
     domain := default "Allgemein" (m !! "domain");
     version := default "1.0" (m !! "version") |}.

Record outcome := Outcome {
  out_scene : scene;
  out_reports : list (report_level * string);
  out_status : status
}.

(** [execute]; [r] is what the portal request does if it is made. *)
Definition execute (sc : scene) (r : response) : outcome :=
  let selected_server := ids_fetch_server_selection sc in
  let connecting := (INFO, "Verbinde mit " +:+ selected_server +:+ "...") in
  if String.eqb selected_server "DE_BIM_PORTAL" then
    let domain_models := _fetch_bim_portal_models r in
    {| out_scene :=
         {| ids_fetch_server_selection := selected_server;
            ids_fetch_domain_models := model_item <$> domain_models;
            ids_fetch_server_connected := true;
            ids_fetch_models_count := Z.of_nat (length domain_models) |};
       out_reports :=
         [connecting;
          (INFO, "✅ " +:+ str_of_int (Z.of_nat (length domain_models))
                   +:+ " Fachmodelle geladen")];
       out_status := FINISHED |}
  else
    {| out_scene := sc;
       out_reports :=
         [connecting;
          (ERROR, "Server " +:+ selected_server +:+ " noch nicht implementiert")];
       out_status := CANCELLED |}.

(** *** [BIM_OT_download_domain_model_ids] *)

(** The double quote character. *)
Definition dq : string := String (ascii_of_nat 34) EmptyString.

Definition _create_mock_ids_content (model_name : string) : string :=
  "<?xml version=" +:+ dq +:+ "1.0" +:+ dq +:+ " encoding=" +:+ dq +:+ "UTF-8" +:+ dq +:+ "?>
<ids xmlns=" +:+ dq +:+ "http://standards.buildingsmart.org/IDS" +:+ dq +:+ " xmlns:xsi=" +:+ dq +:+ "http://www.w3.org/2001/XMLSchema-instance" +:+ dq +:+ ">
    <info>
        <title>" +:+ model_name +:+ "</title>
        <description>Austausch-Informations-Anforderungen für " +:+ model_name +:+ "</description>
        <author>BIM Deutschland Portal (via.bund.de)</author>
        <purpose>Fachmodell Validierung und Qualitätssicherung</purpose>
        <milestone>Entwicklung</milestone>
    </info>
    <specifications>
        <specification name=" +:+ dq +:+ "Grundanforderungen " +:+ model_name +:+ dq +:+ " ifcVersion=" +:+ dq +:+ "IFC4X3_ADD2" +:+ dq +:+ ">
            <applicability>
                <entity>
                    <n>IFCWALL</n>
                </entity>
            </applicability>
            <requirements>
                <property propertySet=" +:+ dq +:+ "Pset_WallCommon" +:+ dq +:+ " baseName=" +:+ dq +:+ "LoadBearing" +:+ dq +:+ " cardinality=" +:+ dq +:+ "required" +:+ dq +:+ ">
                    <instructions>Tragend/nicht-tragend muss definiert sein</instructions>
                </property>
                <property propertySet=" +:+ dq +:+ "Pset_WallCommon" +:+ dq +:+ " baseName=" +:+ dq +:+ "IsExternal" +:+ dq +:+ " cardinality=" +:+ dq +:+ "required" +:+ dq +:+ ">
                    <instructions>Außenwand/Innenwand Klassifikation erforderlich</instructions>
                </property>
                <material cardinality=" +:+ dq +:+ "required" +:+ dq +:+ ">
                    <instructions>Materialdefinition für alle Wände erforderlich</instructions>
                </material>
            </requirements>
        </specification>
        <specification name=" +:+ dq +:+ "Türen " +:+ model_name +:+ dq +:+ " ifcVersion=" +:+ dq +:+ "IFC4X3_ADD2" +:+ dq +:+ ">
            <applicability>
                <entity>
                    <n>IFCDOOR</n>
                </entity>
            </applicability>
            <requirements>
                <property propertySet=" +:+ dq +:+ "Pset_DoorCommon" +:+ dq +:+ " baseName=" +:+ dq +:+ "FireRating" +:+ dq +:+ " cardinality=" +:+ dq +:+ "optional" +:+ dq +:+ ">
                    <instructions>Brandschutzklasse falls relevant</instructions>
                </property>
                <property propertySet=" +:+ dq +:+ "Pset_DoorCommon" +:+ dq +:+ " baseName=" +:+ dq +:+ "IsExternal" +:+ dq +:+ " cardinality=" +:+ dq +:+ "required" +:+ dq +:+ ">
                    <instructions>Außentür/Innentür Klassifikation</instructions>
                </property>
            </requirements>
        </specification>
    </specifications>
</ids>".

(** What the [try] block of [_fetch_ids_from_bim_portal] does: the request
    returns the text of the response, or raises a
    [requests.exceptions.RequestException], or something else is raised. *)
Inductive ids_response :=
  | IdsText (text : string)
  | IdsRequestException (e : string)
  | IdsOtherException (e : string).

(** [None] is Python's [None]. *)
Definition _fetch_ids_from_bim_portal (r : ids_response) (model_name : string)
    : option string :=
  match r with
  | IdsText ids_content => Some ids_content
  | IdsRequestException _ => Some (_create_mock_ids_content model_name)
  | IdsOtherException _ => None
  end.

(** What saving does (forcing the [.ids] suffix, creating the directory,
    writing the file): it raises, or the file is written and the path has
    the given [str(filepath)] and [filepath.name]. *)
Inductive save_result :=
  | SaveRaised (e : string)
  | Saved (path_str file_name : string).

Record download_operator := DownloadOperator {
  model_guid : string;
  model_name : string;
  filepath : string
}.

Record download_scene := DownloadScene {
  ids_fetch_last_download : string;
  ids_fetch_last_model_name : string;
  ids_fetch_last_model_guid : string
}.

Record download_outcome := DownloadOutcome {
  dl_scene : download_scene;
  dl_written : option string;   (* the content of the file, when it was saved *)
  dl_reports : list (report_level * string);
  dl_status : status
}.

(** [execute] of the download operator. *)
Definition download (op : download_operator) (sc : download_scene)
    (r : ids_response) (save : save_result) : download_outcome :=
  if negb (truthy (model_guid op)) then
    DownloadOutcome sc None [(ERROR, "Keine Modell-GUID angegeben")] CANCELLED
  else if negb (truthy (filepath op)) then
    DownloadOutcome sc None [(ERROR, "Kein Speicherort ausgewählt")] CANCELLED
  else
    let loading := (INFO, "Lade IDS im Hintergrund: " +:+ model_name op) in
    match _fetch_ids_from_bim_portal r (model_name op) with
    | Some ids_content =>
        if truthy ids_content then
          match save with
          | Saved path_str file_name =>
              DownloadOutcome
                {| ids_fetch_last_download := path_str;
                   ids_fetch_last_model_name := model_name op;
                   ids_fetch_last_model_guid := model_guid op |}
                (Some ids_content)
                [loading; (INFO, "✅ IDS gespeichert: " +:+ file_name)]
                FINISHED
          | SaveRaised e =>
              DownloadOutcome sc None
                [loading; (ERROR, "Fehler beim Speichern: " +:+ e)] CANCELLED
          end
        else
          DownloadOutcome sc None
            [loading; (ERROR, "IDS-Inhalt konnte nicht geladen werden")] CANCELLED
    | None =>
        DownloadOutcome sc None
          [loading; (ERROR, "IDS-Inhalt konnte nicht geladen werden")] CANCELLED
    end.

End FetchPanel.

(** * Properties *)

Lemma truthy_true (s : string) : truthy s = true <-> s <> "".
Proof. destruct s; simpl; split; congruence. Qed.

Lemma truthy_false (s : string) : truthy s = false <-> s = "".
Proof. destruct s; simpl; split; congruence. Qed.

(** ** The structural parser *)

Module IdsParserFacts.
Import IdsParser.

(** *** Adding properties only grows a properties dictionary *)

Lemma add_property_grows (props : gmap string (gset string)) p ps bases :
  props !! ps = Some bases ->
  exists bases', add_property props p !! ps = Some bases' /\ bases ⊆ bases'.
Proof.
  intros Hps. unfold add_property.
  set (prop_set := default "" (prop_propertySet p)).
  set (base_name := default "" (prop_baseName p)).
  destruct (truthy prop_set); [|by exists bases].
  assert (Hp1 : exists b1,
    match props !! prop_set with
    | None => <[prop_set := ∅]> props
    | Some _ => props
    end !! ps = Some b1 /\ bases ⊆ b1).
  { destruct (props !! prop_set) eqn:E; [by exists bases|].
    exists bases. split; [|done].
    rewrite lookup_insert_ne; [done|]. intros ->. congruence. }
  destruct Hp1 as (b1 & Hb1 & Hsub).
  set (props1 := match props !! prop_set with
                 | None => <[prop_set := ∅]> props
                 | Some _ => props
                 end) in *.
  destruct (truthy base_name); [|by exists b1].
  destruct (props1 !! prop_set) as [bs|] eqn:E; [|by exists b1].
  destruct (decide (base_name ∈ bs)); [by exists b1|].
  destruct (decide (prop_set = ps)) as [->|Hne].
  - rewrite lookup_insert_eq. eexists; split; [done|].
    rewrite Hb1 in E. injection E as <-. set_solver.
  - rewrite lookup_insert_ne by done. by exists b1.
Qed.

Lemma add_properties_grow reqs (props : gmap string (gset string)) ps bases :
  props !! ps = Some bases ->
  exists bases', foldl add_property props reqs !! ps = Some bases' /\ bases ⊆ bases'.
Proof.
  revert props bases. induction reqs as [|p reqs IH]; intros props bases Hps; simpl.
  - by exists bases.
  - destruct (add_property_grows props p ps bases Hps) as (b1 & Hb1 & Hsub).
    destruct (IH _ _ Hb1) as (b2 & Hb2 & Hsub2).
    exists b2. split; [done|]. set_solver.
Qed.

(** *** One applicability entity *)

Lemma process_entity_lookup spec_name reqs st e :
  result (process_entity spec_name reqs st e) !! entity_key e =
    Some (add_properties reqs
            (default {| name := spec_name; properties := ∅ |}
                     (result st !! entity_key e))).
Proof.
  unfold process_entity; simpl. rewrite lookup_alter_eq.
  destruct (result st !! entity_key e) eqn:E; simpl.
  - by rewrite E.
  - by rewrite lookup_insert_eq.
Qed.

Lemma process_entity_lookup_ne spec_name reqs st e k :
  k <> entity_key e ->
  result (process_entity spec_name reqs st e) !! k = result st !! k.
Proof.
  intros Hne. unfold process_entity; simpl.
  rewrite lookup_alter_ne by done.
  destruct (result st !! entity_key e); [done|].
  by rewrite lookup_insert_ne.
Qed.

Lemma process_entity_keeps spec_name reqs st e k :
  is_Some (result st !! k) ->
  is_Some (result (process_entity spec_name reqs st e) !! k).
Proof.
  intros Hk. destruct (decide (k = entity_key e)) as [->|Hne].
  - rewrite process_entity_lookup. eauto.
  - by rewrite process_entity_lookup_ne.
Qed.

Lemma process_entities_keep spec_name reqs ents st k :
  is_Some (result st !! k) ->
  is_Some (result (foldl (process_entity spec_name reqs) st ents) !! k).
Proof.
  revert st. induction ents as [|e ents IH]; intros st Hk; simpl; [done|].
  apply IH. by apply process_entity_keeps.
Qed.

Lemma process_entities_add spec_name reqs ents st e :
  e ∈ ents ->
  is_Some (result (foldl (process_entity spec_name reqs) st ents) !! entity_key e).
Proof.
  revert st. induction ents as [|a ents IH]; intros st Hin; simpl.
  - by apply elem_of_nil in Hin.
  - apply elem_of_cons in Hin as [->|Hin]; [|by apply IH].
    apply process_entities_keep. rewrite process_entity_lookup. eauto.
Qed.

Lemma process_specification_keeps st spec k :
  is_Some (result st !! k) ->
  is_Some (result (process_specification st spec) !! k).
Proof.
  intros Hk. unfold process_specification.
  destruct (spec_applicability spec), (spec_requirements spec); try done.
  by apply process_entities_keep.
Qed.

Lemma process_specifications_keep specs st k :
  is_Some (result st !! k) ->
  is_Some (result (foldl process_specification st specs) !! k).
Proof.
  revert st. induction specs as [|s specs IH]; intros st Hk; simpl; [done|].
  apply IH. by apply process_specification_keeps.
Qed.

Lemma process_specifications_add specs st spec ents reqs e :
  spec ∈ specs ->
  spec_applicability spec = Some ents ->
  spec_requirements spec = Some reqs ->
  e ∈ ents ->
  is_Some (result (foldl process_specification st specs) !! entity_key e).
Proof.
  intros Hin Happ Hreq He. revert st.
  induction specs as [|s specs IH]; intros st; simpl.
  - by apply elem_of_nil in Hin.
  - apply elem_of_cons in Hin as [<-|Hin]; [|by apply IH].
    apply process_specifications_keep.
    unfold process_specification. rewrite Happ, Hreq.
    by apply process_entities_add.
Qed.

(** *** Duplicate entity keys *)

(** C1, as the code has it: when the key of an applicability entity is
    already in the result, the duplicate warning is printed and processing
    goes on; the entry keeps the specification name it was created with,
    every other key is untouched, and the requirements of the specification
    at hand are merged into the properties of the existing entry, which
    keeps all the property sets and base names it had. *)
Theorem duplicate_key_keeps_name_merges_properties
    spec_name reqs (st : state) (e : ids_entity) (old : entry) :
  result st !! entity_key e = Some old ->
  let st' := process_entity spec_name reqs st e in
  printed st' = printed st ++ [duplicate_warning (entity_key e)] /\
  (exists new,
      result st' !! entity_key e = Some new /\
      name new = name old /\
      properties new = foldl add_property (properties old) reqs /\
      forall ps bases, properties old !! ps = Some bases ->
        exists bases', properties new !! ps = Some bases' /\ bases ⊆ bases') /\
  (forall k, k <> entity_key e -> result st' !! k = result st !! k).
Proof.
  intros Hold st'. split; [|split].
  - unfold st', process_entity; simpl. by rewrite Hold.
  - exists (add_properties reqs old). unfold st'.
    rewrite process_entity_lookup, Hold. simpl.
    repeat split; try done.
    intros ps bases Hps. by apply add_properties_grow.
  - intros k Hne. unfold st'. by apply process_entity_lookup_ne.
Qed.

Lemma duplicate_key_keeps_name_merges_properties_witness :
  let st := parse_ids door_doc in
  let e := Entity (Some "IFCDOOR") None in
  let st' := process_entity "Doors B" [Property (Some "Pset_Extra") (Some "Acoustic")] st e in
  exists old,
    result st !! entity_key e = Some old /\
    printed st' = printed st ++ [duplicate_warning (entity_key e)].
Proof.
  intros st e st'.
  exists {| name := "Doors A";
            properties := {[ "Pset_DoorCommon" := {[ "FireRating" ]} ]} |}.
  assert (H : result st !! entity_key e =
              Some {| name := "Doors A";
                      properties := {[ "Pset_DoorCommon" := {[ "FireRating" ]} ]} |})
    by (vm_compute; reflexivity).
  split; [exact H|].
  exact (proj1 (duplicate_key_keeps_name_merges_properties
                  "Doors B" [Property (Some "Pset_Extra") (Some "Acoustic")] st e _ H)).
Defined.

(** C1 as claimed fails: the entry found under a duplicate key is not
    left unchanged, the later specification adds its property set to it. *)
Lemma duplicate_key_entry_modified :
  let st := parse_ids door_doc in
  let e := Entity (Some "IFCDOOR") None in
  let st' := process_entity "Doors B" [Property (Some "Pset_Extra") (Some "Acoustic")] st e in
  exists old,
    result st !! entity_key e = Some old /\
    result st' !! entity_key e <> Some old /\
    properties old !! "Pset_Extra" = None /\
    (result st' !! entity_key e) ≫= (fun new => properties new !! "Pset_Extra")
      = Some {[ "Acoustic" ]}.
Proof.
  intros st e st'.
  exists {| name := "Doors A";
            properties := {[ "Pset_DoorCommon" := {[ "FireRating" ]} ]} |}.
  split; [vm_compute; reflexivity|].
  split; [|split; vm_compute; reflexivity].
  intros H.
  apply (f_equal (fun o => o ≫= (fun new => properties new !! "Pset_Extra"))) in H.
  vm_compute in H. discriminate H.
Qed.

(** *** Entity keys *)

(** C6: the key of an applicability entity is its name alone when the
    predefined type is absent or empty, and [name.predefinedType]
    otherwise; every entity of a specification that has both an
    applicability and a requirements section is in the result under that
    key. *)
Theorem entity_key_construction
    (doc : ids_document) specs (i : nat) spec ents reqs (j : nat) (e : ids_entity) :
  doc_specifications doc = Some specs ->
  specs !! i = Some spec ->
  spec_applicability spec = Some ents ->
  spec_requirements spec = Some reqs ->
  ents !! j = Some e ->
  is_Some (result (parse_ids doc) !! entity_key e) /\
  (default "" (ent_predefinedType e) = "" ->
     entity_key e = default "" (ent_name e)) /\
  (default "" (ent_predefinedType e) <> "" ->
     entity_key e = default "" (ent_name e) +:+ "." +:+ default "" (ent_predefinedType e)) /\
  entity_key (Entity (Some "IFCWALL") (Some "SOLIDWALL")) = "IFCWALL.SOLIDWALL" /\
  entity_key (Entity (Some "IFCWALL") None) = "IFCWALL".
Proof.
  intros Hdoc Hspec Happ Hreq He.
  split; [|split; [|split; [|split]]].
  - unfold parse_ids. rewrite Hdoc.
    eapply process_specifications_add; eauto.
    + by eapply list_elem_of_lookup_2.
    + by eapply list_elem_of_lookup_2.
  - intros Hp. unfold entity_key. by rewrite Hp.
  - intros Hp. unfold entity_key.
    by destruct (truthy_true (default "" (ent_predefinedType e))) as [_ ->].
  - reflexivity.
  - reflexivity.
Qed.

Lemma entity_key_construction_witness :
  is_Some (result (parse_ids wall_doc) !! "IFCWALL.SOLIDWALL").
Proof.
  exact (proj1 (entity_key_construction wall_doc [wall_spec] 0 wall_spec
                  _ _ 0 (Entity (Some "IFCWALL") (Some "SOLIDWALL"))
                  eq_refl eq_refl eq_refl eq_refl eq_refl)).
Defined.

(** *** The parser as one pass over the work list *)

Lemma process_specification_items st spec :
  process_specification st spec = foldl process_item st (specification_entities spec).
Proof.
  unfold process_specification, specification_entities.
  destruct (spec_applicability spec) as [ents|]; [|done].
  destruct (spec_requirements spec) as [reqs|]; [|done].
  revert st. induction ents as [|e ents IH]; intros st; simpl; [done|].
  by rewrite IH.
Qed.

Lemma parse_ids_items doc :
  parse_ids doc = foldl process_item (State ∅ []) (document_entities doc).
Proof.
  unfold parse_ids, document_entities.
  destruct (doc_specifications doc) as [specs|]; [|done].
  generalize (State ∅ []). induction specs as [|spec specs IH]; intros st; simpl; [done|].
  by rewrite foldl_app, IH, process_specification_items.
Qed.

Lemma first_with_key_snoc k l t :
  first_with_key k (l ++ [t]) =
    match first_with_key k l with
    | Some t' => Some t'
    | None => if decide (entity_key (snd t) = k) then Some t else None
    end.
Proof.
  induction l as [|a l IH]; simpl; [done|].
  by destruct (decide (entity_key (snd a) = k)).
Qed.

Lemma first_with_key_None k l :
  first_with_key k l = None <-> forall t, t ∈ l -> entity_key (snd t) <> k.
Proof.
  induction l as [|a l IH]; simpl.
  - split; [|done]. intros _ t Ht. by apply elem_of_nil in Ht.
  - destruct (decide (entity_key (snd a) = k)) as [Heq|Hne].
    + split; [done|]. intros H. exfalso. apply (H a); [constructor|done].
    + rewrite IH. split.
      * intros H t Ht. apply elem_of_cons in Ht as [->|Ht]; [done|by apply H].
      * intros H t Ht. apply H. by constructor.
Qed.

Lemma items_name k l :
  name <$> (result (foldl process_item (State ∅ []) l) !! k) =
    (fun t => fst (fst t)) <$> first_with_key k l.
Proof.
  induction l as [|t l IH] using rev_ind; [done|].
  rewrite foldl_snoc, first_with_key_snoc. unfold process_item at 1.
  destruct (decide (entity_key (snd t) = k)) as [<-|Hne].
  - rewrite process_entity_lookup.
    destruct (first_with_key _ l) as [t'|] eqn:Hfirst; simpl in *.
    + destruct (result _ !! entity_key (snd t)) as [old|]; simpl in *; congruence.
    + by destruct (result _ !! entity_key (snd t)).
  - rewrite process_entity_lookup_ne by done. rewrite IH.
    by destruct (first_with_key k l).
Qed.

(** X1: the keys of the result are the keys of the work list, and the name
    stored under a key is the name of the specification of the first
    entity, in document order, that has this key. *)
Theorem parse_ids_first_seen_name (doc : ids_document) (k : string) :
  name <$> (result (parse_ids doc) !! k) =
    (fun t => fst (fst t)) <$> first_with_key k (document_entities doc) /\
  (result (parse_ids doc) !! k = None <->
     forall t, t ∈ document_entities doc -> entity_key (snd t) <> k).
Proof.
  rewrite parse_ids_items. split; [apply items_name|].
  rewrite <- first_with_key_None.
  pose proof (items_name k (document_entities doc)) as H.
  destruct (result _ !! k), (first_with_key k _); simpl in H; split; congruence.
Qed.

Lemma parse_ids_first_seen_name_witness :
  name <$> (result (parse_ids doors_doc) !! "IFCDOOR") = Some "Doors A" /\
  result (parse_ids doors_doc) !! "IFCWINDOW" = None.
Proof.
  split.
  - exact (eq_trans (proj1 (parse_ids_first_seen_name doors_doc "IFCDOOR")) eq_refl).
  - apply (proj2 (parse_ids_first_seen_name doors_doc "IFCWINDOW")).
    intros t Ht.
    apply elem_of_cons in Ht as [->|Ht]; [discriminate|].
    apply elem_of_cons in Ht as [->|Ht]; [discriminate|].
    by apply elem_of_nil in Ht.
Defined.

(** *** What ends up in the properties of an entry *)

Lemma add_property_lookup (props : gmap string (gset string)) p ps :
  add_property props p !! ps =
    if truthy (default "" (prop_propertySet p)) then
      if decide (ps = default "" (prop_propertySet p)) then
        Some (default ∅ (props !! ps) ∪
              (if truthy (default "" (prop_baseName p))
               then {[ default "" (prop_baseName p) ]} else ∅))
      else props !! ps
    else props !! ps.
Proof.
  unfold add_property.
  set (P := default "" (prop_propertySet p)).
  set (B := default "" (prop_baseName p)).
  destruct (truthy P); [|done].
  destruct (decide (ps = P)) as [->|Hne];
    destruct (props !! P) as [bases|] eqn:HP; simpl;
    destruct (truthy B); simpl;
    rewrite ?HP, ?lookup_insert_eq; simpl;
    try destruct (decide (B ∈ _));
    rewrite ?HP, ?lookup_insert_eq, ?lookup_insert_ne by done; simpl;
    try done; try (f_equal; set_solver).
Qed.

Lemma add_property_has_pset props p ps :
  has_pset (add_property props p) ps <-> has_pset props ps \/ asks_pset p ps.
Proof.
  unfold has_pset, asks_pset. rewrite add_property_lookup.
  destruct (truthy (default "" (prop_propertySet p))) eqn:HP.
  - apply truthy_true in HP. destruct (decide (ps = _)) as [->|Hne].
    + split; [by right|eauto].
    + split; [by left|]. intros [H|[H _]]; [done|]. by rewrite H in Hne.
  - apply truthy_false in HP. split; [by left|].
    intros [H|[H1 H2]]; [done|]. congruence.
Qed.

Lemma add_property_has_base props p ps b :
  has_base (add_property props p) ps b <-> has_base props ps b \/ asks_base p ps b.
Proof.
  unfold has_base, asks_base, asks_pset. rewrite add_property_lookup.
  destruct (truthy (default "" (prop_propertySet p))) eqn:HP.
  - apply truthy_true in HP. destruct (decide (ps = _)) as [->|Hne].
    + destruct (truthy (default "" (prop_baseName p))) eqn:HB.
      * apply truthy_true in HB. split.
        -- intros (bases & [= <-] & Hb). apply elem_of_union in Hb as [Hb|Hb].
           ++ left. destruct (props !! _) as [bs|]; [by exists bs|set_solver].
           ++ right. apply elem_of_singleton in Hb as ->. done.
        -- intros [(bases & Hl & Hb)|(_ & <- & _)]; eexists; (split; [done|]).
           ++ rewrite Hl. set_solver.
           ++ set_solver.
      * apply truthy_false in HB. split.
        -- intros (bases & [= <-] & Hb). left.
           destruct (props !! _) as [bs|]; [exists bs; set_solver|set_solver].
        -- intros [(bases & Hl & Hb)|(_ & Hb & Hne)]; [|congruence].
           eexists; split; [done|]. rewrite Hl. set_solver.
    + split; [by left|]. intros [H|((H & _) & _)]; [done|]. by rewrite H in Hne.
  - apply truthy_false in HP. split; [by left|].
    intros [H|((H1 & H2) & _)]; [done|]. congruence.
Qed.

Lemma add_properties_has_pset reqs props ps :
  has_pset (foldl add_property props reqs) ps <->
    has_pset props ps \/ exists p, p ∈ reqs /\ asks_pset p ps.
Proof.
  revert props. induction reqs as [|q reqs IH]; intros props; simpl.
  - split; [by left|]. intros [H|(p & Hp & _)]; [done|]. by apply elem_of_nil in Hp.
  - rewrite IH, add_property_has_pset. split.
    + intros [[H|H]|(p & Hp & H)]; [by left|right..].
      * exists q. split; [constructor|done].
      * exists p. split; [by constructor|done].
    + intros [H|(p & Hp & H)]; [by left; left|].
      apply elem_of_cons in Hp as [->|Hp]; [by left; right|].
      right. by exists p.
Qed.

Lemma add_properties_has_base reqs props ps b :
  has_base (foldl add_property props reqs) ps b <->
    has_base props ps b \/ exists p, p ∈ reqs /\ asks_base p ps b.
Proof.
  revert props. induction reqs as [|q reqs IH]; intros props; simpl.
  - split; [by left|]. intros [H|(p & Hp & _)]; [done|]. by apply elem_of_nil in Hp.
  - rewrite IH, add_property_has_base. split.
    + intros [[H|H]|(p & Hp & H)]; [by left|right..].
      * exists q. split; [constructor|done].
      * exists p. split; [by constructor|done].
    + intros [H|(p & Hp & H)]; [by left; left|].
      apply elem_of_cons in Hp as [->|Hp]; [by left; right|].
      right. by exists p.
Qed.

Lemma process_item_lookup st (t : work_item) k :
  result (process_item st t) !! k =
    if decide (k = entity_key (snd t)) then
      Some (add_properties (snd (fst t))
              (default {| name := fst (fst t); properties := ∅ |} (result st !! k)))
    else result st !! k.
Proof.
  unfold process_item. destruct (decide (k = _)) as [->|Hne].
  - apply process_entity_lookup.
  - by apply process_entity_lookup_ne.
Qed.

Lemma process_item_has_base st (t : work_item) k ps b :
  (exists entry, result (process_item st t) !! k = Some entry /\
                 has_base (properties entry) ps b) <->
  (exists entry, result st !! k = Some entry /\ has_base (properties entry) ps b) \/
  (entity_key (snd t) = k /\ exists p, p ∈ snd (fst t) /\ asks_base p ps b).
Proof.
  rewrite process_item_lookup. destruct (decide (k = _)) as [->|Hne].
  - split.
    + intros (entry & [= <-] & Hb). simpl in Hb.
      apply add_properties_has_base in Hb as [Hb|Hb]; [left|by right].
      destruct (result st !! _) as [old|]; [by exists old|]. simpl in Hb.
      destruct Hb as (bases & Hl & _). by rewrite lookup_empty in Hl.
    + intros [(old & Hold & Hb)|(_ & Hb)]; eexists; (split; [done|]); simpl;
        apply add_properties_has_base; [left|by right].
      by rewrite Hold.
  - split; [by left|]. intros [H|(H & _)]; [done|]. by rewrite H in Hne.
Qed.

Lemma process_item_has_pset st (t : work_item) k ps :
  (exists entry, result (process_item st t) !! k = Some entry /\
                 has_pset (properties entry) ps) <->
  (exists entry, result st !! k = Some entry /\ has_pset (properties entry) ps) \/
  (entity_key (snd t) = k /\ exists p, p ∈ snd (fst t) /\ asks_pset p ps).
Proof.
  rewrite process_item_lookup. destruct (decide (k = _)) as [->|Hne].
  - split.
    + intros (entry & [= <-] & Hb). simpl in Hb.
      apply add_properties_has_pset in Hb as [Hb|Hb]; [left|by right].
      destruct (result st !! _) as [old|]; [by exists old|]. simpl in Hb.
      destruct Hb as (bases & Hl). by rewrite lookup_empty in Hl.
    + intros [(old & Hold & Hb)|(_ & Hb)]; eexists; (split; [done|]); simpl;
        apply add_properties_has_pset; [left|by right].
      by rewrite Hold.
  - split; [by left|]. intros [H|(H & _)]; [done|]. by rewrite H in Hne.
Qed.

(** X2: the properties of an entry are exactly what the requirements of
    all specifications with an entity of that key ask for: a property set
    is there when one of them names it, a base name is in it when one of
    them names both; empty names never get in. *)
Theorem parse_ids_properties_are_merged (doc : ids_document) (k ps b : string) :
  ((exists entry, result (parse_ids doc) !! k = Some entry /\
                  has_pset (properties entry) ps) <->
   (exists t p, t ∈ document_entities doc /\ entity_key (snd t) = k /\
                p ∈ snd (fst t) /\ asks_pset p ps)) /\
  ((exists entry, result (parse_ids doc) !! k = Some entry /\
                  has_base (properties entry) ps b) <->
   (exists t p, t ∈ document_entities doc /\ entity_key (snd t) = k /\
                p ∈ snd (fst t) /\ asks_base p ps b)) /\
  (forall entry, result (parse_ids doc) !! k = Some entry ->
     (has_pset (properties entry) ps -> ps <> "") /\
     (has_base (properties entry) ps b -> b <> "")).
Proof.
  rewrite parse_ids_items.
  assert (Hpset : forall l,
    (exists entry, result (foldl process_item (State ∅ []) l) !! k = Some entry /\
                   has_pset (properties entry) ps) <->
    (exists t p, t ∈ l /\ entity_key (snd t) = k /\ p ∈ snd (fst t) /\ asks_pset p ps)).
  { induction l as [|t l IH] using rev_ind.
    - simpl. split.
      + intros (entry & Hl & _). by rewrite lookup_empty in Hl.
      + intros (t & p & Ht & _). by apply elem_of_nil in Ht.
    - rewrite foldl_snoc, process_item_has_pset, IH. split.
      + intros [(t' & p & Ht & H)|(Hk & p & Hp & H)].
        * exists t', p. split; [apply elem_of_app; by left|done].
        * exists t, p. split; [apply elem_of_app; right; constructor|done].
      + intros (t' & p & Ht & Hk & Hp & H).
        apply elem_of_app in Ht as [Ht|Ht].
        * left. by exists t', p.
        * apply list_elem_of_singleton in Ht as ->. right. split; [done|by exists p]. }
  assert (Hbase : forall l,
    (exists entry, result (foldl process_item (State ∅ []) l) !! k = Some entry /\
                   has_base (properties entry) ps b) <->
    (exists t p, t ∈ l /\ entity_key (snd t) = k /\ p ∈ snd (fst t) /\ asks_base p ps b)).
  { induction l as [|t l IH] using rev_ind.
    - simpl. split.
      + intros (entry & Hl & _). by rewrite lookup_empty in Hl.
      + intros (t & p & Ht & _). by apply elem_of_nil in Ht.
    - rewrite foldl_snoc, process_item_has_base, IH. split.
      + intros [(t' & p & Ht & H)|(Hk & p & Hp & H)].
        * exists t', p. split; [apply elem_of_app; by left|done].
        * exists t, p. split; [apply elem_of_app; right; constructor|done].
      + intros (t' & p & Ht & Hk & Hp & H).
        apply elem_of_app in Ht as [Ht|Ht].
        * left. by exists t', p.
        * apply list_elem_of_singleton in Ht as ->. right. split; [done|by exists p]. }
  split; [apply Hpset|]. split; [apply Hbase|].
  intros entry Hentry. split.
  - intros H.
    destruct (proj1 (Hpset (document_entities doc)))
      as (t & p & _ & _ & _ & _ & Hne); [by exists entry|done].
  - intros H.
    destruct (proj1 (Hbase (document_entities doc)))
      as (t & p & _ & _ & _ & _ & _ & Hne); [by exists entry|done].
Qed.

Lemma parse_ids_properties_are_merged_witness :
  exists entry,
    result (parse_ids doors_doc) !! "IFCDOOR" = Some entry /\
    has_base (properties entry) "Pset_Extra" "Acoustic".
Proof.
  apply (proj2 (proj1 (proj2
           (parse_ids_properties_are_merged doors_doc "IFCDOOR" "Pset_Extra" "Acoustic")))).
  exists ("Doors B", [Property (Some "Pset_Extra") (Some "Acoustic")],
          Entity (Some "IFCDOOR") None),
         (Property (Some "Pset_Extra") (Some "Acoustic")).
  split; [apply list_elem_of_lookup_2 with 1%nat; reflexivity|].
  split; [reflexivity|].
  split; [apply list_elem_of_lookup_2 with 0%nat; reflexivity|].
  repeat split; discriminate.
Defined.

(** *** Warnings and entries *)

Lemma process_item_count st (t : work_item) :
  (length (printed (process_item st t)) + size (result (process_item st t)) =
   S (length (printed st) + size (result st)))%nat.
Proof.
  unfold process_item, process_entity. simpl.
  rewrite <- (size_dom (alter _ _ _)), dom_alter_L, size_dom.
  destruct (result st !! entity_key (snd t)) eqn:Hk.
  - rewrite length_app. simpl. lia.
  - rewrite map_size_insert_None by done. lia.
Qed.

Lemma process_item_printed st (t : work_item) line :
  line ∈ printed (process_item st t) ->
  line ∈ printed st \/
  (line = duplicate_warning (entity_key (snd t)) /\
   is_Some (result st !! entity_key (snd t))).
Proof.
  unfold process_item, process_entity. simpl.
  destruct (result st !! entity_key (snd t)) eqn:Hk; [|by left].
  intros Hin. apply elem_of_app in Hin as [Hin|Hin]; [by left|].
  apply list_elem_of_singleton in Hin. right. eauto.
Qed.

(** X3: one line is printed for every work item beyond the first of its
    key: the number of warnings plus the number of entries is the number
    of applicability entities processed, and every line is the duplicate
    warning of a key of the result. *)
Theorem parse_ids_warning_count (doc : ids_document) :
  (length (printed (parse_ids doc)) + size (result (parse_ids doc)) =
   length (document_entities doc))%nat /\
  (forall line, line ∈ printed (parse_ids doc) ->
     exists k, line = duplicate_warning k /\ is_Some (result (parse_ids doc) !! k)).
Proof.
  rewrite parse_ids_items.
  induction (document_entities doc) as [|t l [IHn IHp]] using rev_ind.
  - split; [done|]. intros line Hin. by apply elem_of_nil in Hin.
  - rewrite foldl_snoc. split.
    + rewrite process_item_count, length_app, IHn. simpl. lia.
    + intros line Hin. apply process_item_printed in Hin as [Hin|[-> Hk]].
      * destruct (IHp line Hin) as (k & -> & Hk). exists k. split; [done|].
        unfold process_item. by apply process_entity_keeps.
      * exists (entity_key (snd t)). split; [done|].
        unfold process_item. by apply process_entity_keeps.
Qed.

Lemma parse_ids_warning_count_witness :
  exists k,
    "WARNING: Duplicate entity key 'IFCDOOR' found" = duplicate_warning k /\
    is_Some (result (parse_ids doors_doc) !! k).
Proof.
  apply (proj2 (parse_ids_warning_count doors_doc)).
  apply list_elem_of_lookup_2 with 0%nat. vm_compute. reflexivity.
Defined.

(** X4: a specification without an applicability section or without a
    requirements section can be dropped from the document without
    changing what the parser returns or prints; a document without a
    specifications element gives the empty result. *)
Theorem parse_ids_skips_incomplete (specs1 specs2 : list ids_specification)
    (spec : ids_specification) :
  spec_applicability spec = None \/ spec_requirements spec = None ->
  parse_ids (Document (Some (specs1 ++ spec :: specs2))) =
    parse_ids (Document (Some (specs1 ++ specs2))) /\
  parse_ids (Document None) = State ∅ [].
Proof.
  intros Hmissing. split; [|done].
  unfold parse_ids. simpl. rewrite !foldl_app. simpl. f_equal.
  unfold process_specification.
  destruct Hmissing as [-> | ->]; [done|].
  by destruct (spec_applicability spec).
Qed.

Lemma parse_ids_skips_incomplete_witness :
  parse_ids (Document (Some ([door_spec_1] ++
      Specification (Some "No requirements") (Some [Entity (Some "IFCSLAB") None]) None
      :: [door_spec_2]))) =
    parse_ids (Document (Some ([door_spec_1] ++ [door_spec_2]))).
Proof.
  exact (proj1 (parse_ids_skips_incomplete [door_spec_1] [door_spec_2]
                  (Specification (Some "No requirements")
                     (Some [Entity (Some "IFCSLAB") None]) None)
                  (or_intror eq_refl))).
Defined.

(** *** The namespace of the root tag *)

Lemma str_before_no_sep sep s : str_mem sep (str_before sep s) = false.
Proof.
  induction s as [|c s IH]; simpl; [done|].
  destruct (Ascii.eqb c sep) eqn:E; simpl; [done|]. by rewrite E.
Qed.

Lemma str_before_app sep s rest :
  str_mem sep s = false ->
  str_before sep (s +:+ String sep rest) = s.
Proof.
  induction s as [|c s IH]; simpl.
  - by rewrite Ascii.eqb_refl.
  - intros H. apply orb_false_iff in H as [Hc Hs]. rewrite Hc. f_equal. by apply IH.
Qed.

Lemma str_lstrip_char_mem ch sep s :
  str_mem sep s = false -> str_mem sep (str_lstrip_char ch s) = false.
Proof.
  induction s as [|c s IH]; simpl; [done|].
  intros H. apply orb_false_iff in H as [Hc Hs].
  destruct (Ascii.eqb c ch); [by apply IH|]. simpl. by rewrite Hc, Hs.
Qed.

Lemma str_rstrip_char_mem ch sep s :
  str_mem sep s = false -> str_mem sep (str_rstrip_char ch s) = false.
Proof.
  induction s as [|c s IH]; simpl; [done|].
  intros H. apply orb_false_iff in H as [Hc Hs]. specialize (IH Hs).
  destruct (str_rstrip_char ch s).
  - destruct (Ascii.eqb c ch); simpl; [done|]. by rewrite Hc.
  - simpl in *. by rewrite Hc, IH.
Qed.

Lemma str_lstrip_char_id ch s :
  str_mem ch s = false -> str_lstrip_char ch s = s.
Proof.
  destruct s as [|c s]; simpl; [done|].
  intros H. apply orb_false_iff in H as [Hc _]. by rewrite Hc.
Qed.

Lemma str_rstrip_char_id ch s :
  str_mem ch s = false -> str_rstrip_char ch s = s.
Proof.
  induction s as [|c s IH]; simpl; [done|].
  intros H. apply orb_false_iff in H as [Hc Hs]. rewrite (IH Hs), Hc.
  by destruct s.
Qed.

(** X5: for a root tag [{uri}local] whose [uri] contains no brace, the
    working namespace is [uri]; a tag that does not start with a brace
    gives the empty namespace; and whatever the tag, the namespace
    contains no closing brace. *)
Theorem get_namespaces_of_qualified_tag (uri local tag : string) :
  (str_mem "{" uri = false -> str_mem "}" uri = false ->
     get_namespaces ("{" +:+ uri +:+ "}" +:+ local) = uri) /\
  (String.prefix "{" tag = false -> get_namespaces tag = "") /\
  str_mem "}" (get_namespaces tag) = false.
Proof.
  split; [|split].
  - intros Hopen Hclose.
    change ("{" +:+ uri +:+ "}" +:+ local)
      with (String "{" (uri +:+ String "}" local)).
    unfold get_namespaces.
    replace (String.prefix "{" (String "{" (uri +:+ String "}" local))) with true
      by (simpl; by destruct (uri +:+ String "}" local)).
    change (str_before "}" (String "{" (uri +:+ String "}" local)))
      with (String "{" (str_before "}" (uri +:+ String "}" local))).
    rewrite str_before_app by done.
    unfold str_strip_char.
    change (str_lstrip_char "{" (String "{" uri)) with (str_lstrip_char "{" uri).
    by rewrite str_lstrip_char_id, str_rstrip_char_id.
  - intros Hp. unfold get_namespaces. by rewrite Hp.
  - unfold get_namespaces. destruct (String.prefix "{" tag); [|done].
    unfold str_strip_char.
    apply str_rstrip_char_mem, str_lstrip_char_mem, str_before_no_sep.
Qed.

Lemma get_namespaces_of_qualified_tag_witness :
  get_namespaces ("{" +:+ "http://standards.buildingsmart.org/IDS" +:+ "}" +:+ "ids")
    = "http://standards.buildingsmart.org/IDS".
Proof.
  exact (proj1 (get_namespaces_of_qualified_tag
                  "http://standards.buildingsmart.org/IDS" "ids" "") eq_refl eq_refl).
Defined.

End IdsParserFacts.

(** ** The match panel *)

Module MatchPanelFacts.
Import MatchPanel.

Lemma find_parent_from_nearest nodes i j parent :
  (i <= length nodes)%nat ->
  nearest_entity nodes i j parent ->
  find_parent_from nodes i = Some (name parent).
Proof.
  intros Hlen (Hlt & Hj & Hent & Hbetween).
  induction i as [|i IH]; [lia|]. simpl.
  destruct (decide (i = j)) as [->|Hne].
  - by rewrite Hj, Hent.
  - destruct (nodes !! i) as [node|] eqn:Hi.
    + rewrite (Hbetween i node) by (done || lia).
      apply IH; [lia|lia|]. intros k nd Hk. apply Hbetween. lia.
    + exfalso. apply lookup_ge_None in Hi. lia.
Qed.

Lemma find_parent_from_none nodes i :
  no_entity_before nodes i -> find_parent_from nodes i = None.
Proof.
  intros Hnone. induction i as [|i IH]; [done|]. simpl.
  destruct (nodes !! i) as [node|] eqn:Hi; [|done].
  rewrite (Hnone i node) by (done || lia).
  apply IH. intros k nd Hk. apply Hnone. lia.
Qed.

Lemma execute_selected sc (i : nat) node :
  simple_selected_index sc = Z.of_nat i ->
  simple_tree_nodes sc !! i = Some node ->
  execute sc =
    if String.eqb (node_type node) "Entity" then
      Outcome (store_result sc (name node))
              (INFO, "Selected IFC class: " +:+ name node) FINISHED
    else if (String.eqb (node_type node) "PropertySet"
             || String.eqb (node_type node) "Property")%bool then
      match find_parent_from (simple_tree_nodes sc) i with
      | Some parent_entity =>
          if truthy parent_entity then
            Outcome (store_result sc parent_entity)
                    (INFO, "Selected element belongs to IFC class: " +:+ parent_entity)
                    FINISHED
          else Outcome sc (ERROR, "Could not determine parent IFC class") CANCELLED
      | None => Outcome sc (ERROR, "Could not determine parent IFC class") CANCELLED
      end
    else Outcome sc (ERROR, "Unknown element type selected") CANCELLED.
Proof.
  intros Hidx Hnode. unfold execute, _find_parent_entity. rewrite Hidx.
  pose proof (lookup_lt_Some _ _ _ Hnode) as Hlen.
  replace (Z.of_nat i <? 0)%Z with false by (symmetry; apply Z.ltb_ge; lia).
  replace (Z.of_nat (length (simple_tree_nodes sc)) <=? Z.of_nat i)%Z with false
    by (symmetry; apply Z.leb_gt; lia).
  simpl. by rewrite Nat2Z.id, Hnode.
Qed.

(** C7, as the code has it.  With no node selected the operator reports
    the selection error; a selected Entity node reports its own name; a
    selected PropertySet or Property node reports the name of the nearest
    preceding level-0 Entity node when that name is not empty, and the
    parent error when there is no such node or its name is empty.  Both
    errors leave the scene, and so the match result, as it was. *)
Theorem match_reports_owning_entity (sc : scene) :
  let nodes := simple_tree_nodes sc in
  let idx := simple_selected_index sc in
  ((idx < 0 \/ Z.of_nat (length nodes) <= idx)%Z ->
     execute sc =
       Outcome sc (ERROR, "Please select an element from the tree first") CANCELLED) /\
  (forall (i : nat) node,
     idx = Z.of_nat i -> nodes !! i = Some node ->
     (node_type node = "Entity" ->
        execute sc =
          Outcome (store_result sc (name node))
                  (INFO, "Selected IFC class: " +:+ name node) FINISHED) /\
     (node_type node = "PropertySet" \/ node_type node = "Property" ->
        (forall j parent, nearest_entity nodes i j parent -> name parent <> "" ->
           execute sc =
             Outcome (store_result sc (name parent))
                     (INFO, "Selected element belongs to IFC class: " +:+ name parent)
                     FINISHED) /\
        (forall j parent, nearest_entity nodes i j parent -> name parent = "" ->
           execute sc =
             Outcome sc (ERROR, "Could not determine parent IFC class") CANCELLED) /\
        (no_entity_before nodes i ->
           execute sc =
             Outcome sc (ERROR, "Could not determine parent IFC class") CANCELLED))).
Proof.
  intros nodes idx. split.
  - intros Hsel. unfold execute. fold idx nodes.
    destruct Hsel as [Hneg|Hbig].
    + by replace (idx <? 0)%Z with true by (symmetry; apply Z.ltb_lt; lia).
    + replace (Z.of_nat (length nodes) <=? idx)%Z with true
        by (symmetry; apply Z.leb_le; lia).
      by rewrite orb_true_r.
  - intros i node Hidx Hnode.
    rewrite (execute_selected sc i node Hidx Hnode). fold nodes. split.
    + intros ->. reflexivity.
    + intros Hty.
      assert (Hlen : (i <= length nodes)%nat)
        by (apply Nat.lt_le_incl; eapply lookup_lt_Some; exact Hnode).
      assert (Hne : String.eqb (node_type node) "Entity" = false)
        by (destruct Hty as [-> | ->]; reflexivity).
      assert (Hps : (String.eqb (node_type node) "PropertySet"
                     || String.eqb (node_type node) "Property")%bool = true)
        by (destruct Hty as [-> | ->]; reflexivity).
      rewrite Hne, Hps. repeat split.
      * intros j parent Hnear Hname.
        rewrite (find_parent_from_nearest _ _ _ _ Hlen Hnear).
        by destruct (truthy_true (name parent)) as [_ ->].
      * intros j parent Hnear Hname.
        rewrite (find_parent_from_nearest _ _ _ _ Hlen Hnear).
        by rewrite Hname.
      * intros Hnone. by rewrite find_parent_from_none.
Qed.

Lemma wall_tree_nearest :
  nearest_entity wall_tree 2 0 (TreeNode "IFCWALL" "Entity" 0 false true).
Proof.
  repeat split; [lia|].
  intros k node Hk Hnode. assert (k = 1%nat) as -> by lia.
  injection Hnode as <-. reflexivity.
Defined.

Lemma match_reports_owning_entity_witness :
  simple_matched_entity (out_scene (execute (select wall_tree 2))) = "IFCWALL" /\
  out_status (execute (select wall_tree 2)) = FINISHED.
Proof.
  pose proof (match_reports_owning_entity (select wall_tree 2)) as [_ H].
  destruct (H 2%nat (TreeNode "LoadBearing" "Property" 2 false false)
              eq_refl eq_refl) as [_ Hprop].
  destruct (Hprop (or_intror eq_refl)) as [Hfound _].
  rewrite (Hfound 0%nat _ wall_tree_nearest ltac:(discriminate)).
  split; reflexivity.
Defined.

(** C7 as claimed fails for an Entity node with an empty name: selecting
    the property set below it is answered with the parent error instead of
    that entity's name. *)
Lemma match_unnamed_entity_is_error :
  nearest_entity unnamed_tree 1 0 (TreeNode "" "Entity" 0 false true) /\
  execute (select unnamed_tree 1) =
    Outcome (select unnamed_tree 1)
            (ERROR, "Could not determine parent IFC class") CANCELLED /\
  execute (select unnamed_tree 1) <>
    Outcome (store_result (select unnamed_tree 1) "")
            (INFO, "Selected element belongs to IFC class: ") FINISHED.
Proof.
  split; [|split].
  - repeat split; [lia|]. intros k node Hk. lia.
  - reflexivity.
  - discriminate.
Qed.

(** *** Toggling a node *)

Lemma toggle_expanded_keeps node :
  name (toggle_expanded node) = name node /\
  node_type (toggle_expanded node) = node_type node /\
  level (toggle_expanded node) = level node /\
  is_level0_entity (toggle_expanded node) = is_level0_entity node.
Proof. unfold toggle_expanded. by destruct (has_children node). Qed.

Lemma toggle_expanded_twice node : toggle_expanded (toggle_expanded node) = node.
Proof.
  unfold toggle_expanded. destruct node as [n t l e [|]]; simpl; [|done].
  by rewrite negb_involutive.
Qed.

Lemma find_parent_from_toggled nodes (j n : nat) :
  find_parent_from (alter toggle_expanded j nodes) n = find_parent_from nodes n.
Proof.
  induction n as [|i IH]; simpl; [done|].
  rewrite list_lookup_alter. destruct (decide (j = i)) as [->|Hne].
  - destruct (nodes !! i) as [node|]; simpl; [|done].
    destruct (toggle_expanded_keeps node) as (-> & _ & _ & ->).
    by rewrite IH.
  - by rewrite IH.
Qed.

(** X13: selecting a node through the toggle operator and pressing Match
    gives the report, the status and the matched entity that Match gives
    for that selection on the untoggled tree: expanding or collapsing does
    not change what a node belongs to. *)
Theorem match_after_toggle (sc : scene) (i : nat) :
  (i < length (simple_tree_nodes sc))%nat ->
  let toggled := execute (toggle_node (Z.of_nat i) sc) in
  let plain := execute (select_index sc (Z.of_nat i)) in
  out_report toggled = out_report plain /\
  out_status toggled = out_status plain /\
  simple_matched_entity (out_scene toggled) = simple_matched_entity (out_scene plain) /\
  simple_has_match_results (out_scene toggled)
    = simple_has_match_results (out_scene plain).
Proof.
  intros Hlen toggled plain. unfold toggled, plain, toggle_node.
  replace (0 <=? Z.of_nat i)%Z with true by (symmetry; apply Z.leb_le; lia).
  replace (Z.of_nat i <? Z.of_nat (length (simple_tree_nodes sc)))%Z with true
    by (symmetry; apply Z.ltb_lt; lia).
  simpl. rewrite Nat2Z.id.
  destruct (lookup_lt_is_Some_2 _ _ Hlen) as [node Hnode].
  rewrite (execute_selected _ i (toggle_expanded node)); simpl;
    [|done|by rewrite list_lookup_alter_eq, Hnode].
  rewrite (execute_selected (select_index sc (Z.of_nat i)) i node) by done.
  simpl. rewrite find_parent_from_toggled.
  destruct (toggle_expanded_keeps node) as (-> & -> & _ & _).
  destruct (String.eqb (node_type node) "Entity"); [done|].
  destruct (_ || _)%bool; [|done].
  destruct (find_parent_from (simple_tree_nodes sc) i) as [parent|]; [|done].
  by destruct (truthy parent).
Qed.

Lemma match_after_toggle_witness :
  simple_matched_entity (out_scene (execute (toggle_node 1 (select wall_tree (-1)))))
    = "IFCWALL".
Proof.
  exact (eq_trans (proj1 (proj2 (proj2
           (match_after_toggle (select wall_tree (-1)) 1 ltac:(simpl; lia)))))
         eq_refl).
Defined.

(** X14: toggling the same node twice restores the tree and leaves the
    node selected; a node index outside the tree changes nothing. *)
Theorem toggle_node_twice (sc : scene) (node_index : Z) :
  ((0 <= node_index < Z.of_nat (length (simple_tree_nodes sc)))%Z ->
     toggle_node node_index (toggle_node node_index sc) = select_index sc node_index) /\
  ((node_index < 0 \/ Z.of_nat (length (simple_tree_nodes sc)) <= node_index)%Z ->
     toggle_node node_index sc = sc).
Proof.
  split.
  - intros Hrange. unfold toggle_node at 2.
    replace (0 <=? node_index)%Z with true by (symmetry; apply Z.leb_le; lia).
    replace (node_index <? Z.of_nat (length (simple_tree_nodes sc)))%Z with true
      by (symmetry; apply Z.ltb_lt; lia).
    unfold toggle_node. simpl. rewrite length_alter.
    replace (0 <=? node_index)%Z with true by (symmetry; apply Z.leb_le; lia).
    replace (node_index <? Z.of_nat (length (simple_tree_nodes sc)))%Z with true
      by (symmetry; apply Z.ltb_lt; lia).
    simpl. unfold select_index. f_equal.
    rewrite list_alter_alter_eq. apply list_alter_id.
    intros node. apply toggle_expanded_twice.
  - intros Hout. unfold toggle_node.
    destruct Hout as [Hneg|Hbig].
    + by replace (0 <=? node_index)%Z with false by (symmetry; apply Z.leb_gt; lia).
    + replace (node_index <? Z.of_nat (length (simple_tree_nodes sc)))%Z with false
        by (symmetry; apply Z.ltb_ge; lia).
      by rewrite andb_false_r.
Qed.

Lemma toggle_node_twice_witness :
  toggle_node 0 (toggle_node 0 (select wall_tree (-1))) = select wall_tree 0.
Proof.
  exact (proj1 (toggle_node_twice (select wall_tree (-1)) 0) ltac:(simpl; lia)).
Defined.

(** *** The tree built by the analysis *)

Lemma build_tree_app data1 data2 :
  build_tree (data1 ++ data2) = build_tree data1 ++ build_tree data2.
Proof. unfold build_tree. by rewrite fmap_app, join_app. Qed.

Lemma build_tree_cons item data :
  build_tree (item :: data) = entity_nodes item ++ build_tree data.
Proof. done. Qed.

Lemma pset_nodes_below item : Forall below_entity (pset_nodes item).
Proof.
  unfold pset_nodes. constructor; [split; [done|by left]|].
  destruct (snd item) as [props|]; simpl; [|constructor].
  induction props; simpl; constructor; [split; [done|by right]|done].
Qed.

Lemma entity_nodes_shape k d :
  exists has rest,
    entity_nodes (k, d) = TreeNode k "Entity" 0 false has :: rest /\
    Forall below_entity rest.
Proof.
  unfold entity_nodes. simpl. destruct d as [[|p properties]|].
  - exists false, []. split; [done|constructor].
  - exists true, (mjoin (pset_nodes <$> p :: properties)). split; [done|].
    apply Forall_forall. intros node Hin.
    apply list_elem_of_join in Hin as (l & Hnode & Hl).
    apply list_elem_of_fmap in Hl as (item & -> & _).
    by eapply (proj1 (Forall_forall _ _) (pset_nodes_below item)).
  - exists false, []. split; [done|constructor].
Qed.

(** X15: in the tree built from the parsed data, every node of the block
    of an entity belongs to that entity: with such a node selected, Match
    finishes and reports the entity key, for the entity node itself and,
    when the key is not empty, for each property set and property below
    it. *)
Theorem built_tree_match_reports_owner (sc : scene)
    (pre post : list (string * entity_data)) k d (o : nat) :
  simple_tree_nodes sc = build_tree (pre ++ (k, d) :: post) ->
  simple_selected_index sc = Z.of_nat (length (build_tree pre) + o) ->
  (o < length (entity_nodes (k, d)))%nat ->
  o = 0%nat \/ k <> "" ->
  out_status (execute sc) = FINISHED /\
  simple_matched_entity (out_scene (execute sc)) = k /\
  simple_has_match_results (out_scene (execute sc)) = true.
Proof.
  intros Hnodes Hidx Ho Hk.
  destruct (entity_nodes_shape k d) as (has & rest & Hblock & Hrest).
  rewrite build_tree_app, build_tree_cons, Hblock in Hnodes.
  rewrite Hblock in Ho. simpl in Ho.
  set (A := build_tree pre) in *. set (E := TreeNode k "Entity" 0 false has) in *.
  assert (HE : simple_tree_nodes sc !! length A = Some E).
  { rewrite Hnodes, lookup_app_r by lia. rewrite Nat.sub_diag. reflexivity. }
  destruct o as [|o].
  - rewrite Nat.add_0_r in Hidx.
    by rewrite (execute_selected sc (length A) E Hidx HE).
  - destruct Hk as [Hk|Hk]; [done|].
    destruct (lookup_lt_is_Some_2 rest o ltac:(lia)) as [node Hnode].
    assert (Hsel : simple_tree_nodes sc !! (length A + S o)%nat = Some node).
    { rewrite Hnodes, lookup_app_r by lia.
      replace (length A + S o - length A)%nat with (S o) by lia. simpl.
      by rewrite lookup_app_l by lia. }
    destruct (proj1 (Forall_forall _ _) Hrest node) as [Hnot Hty];
      [by eapply list_elem_of_lookup_2|].
    assert (Hnear : nearest_entity (simple_tree_nodes sc) (length A + S o) (length A) E).
    { split; [lia|]. split; [done|]. split; [done|].
      intros j nd Hj Hnd. rewrite Hnodes, lookup_app_r in Hnd by lia.
      destruct (j - length A)%nat as [|j'] eqn:Hj'; [lia|]. simpl in Hnd.
      rewrite lookup_app_l in Hnd by lia.
      apply (proj1 (Forall_forall _ _) Hrest nd).
      by eapply list_elem_of_lookup_2. }
    rewrite (execute_selected sc _ node Hidx Hsel).
    assert (Hlen : (length A + S o <= length (simple_tree_nodes sc))%nat)
      by (apply Nat.lt_le_incl; eapply lookup_lt_Some; exact Hsel).
    rewrite (find_parent_from_nearest _ _ _ _ Hlen Hnear).
    replace (String.eqb (node_type node) "Entity") with false
      by (destruct Hty as [-> | ->]; reflexivity).
    replace (String.eqb (node_type node) "PropertySet"
             || String.eqb (node_type node) "Property")%bool with true
      by (destruct Hty as [-> | ->]; reflexivity).
    simpl. by destruct (truthy_true k) as [_ ->].
Qed.

Lemma built_tree_match_reports_owner_witness :
  simple_matched_entity
    (out_scene (execute (select (build_tree example_data) 3))) = "IFCWALL".
Proof.
  assert (Hnodes : simple_tree_nodes (select (build_tree example_data) 3) =
                   build_tree ([] ++ ("IFCWALL",
                     Some [("Pset_WallCommon", PsetDict ["LoadBearing"; "IsExternal"])])
                     :: [("IFCDOOR", None)])) by reflexivity.
  assert (Hidx : simple_selected_index (select (build_tree example_data) 3) =
                 Z.of_nat (length (build_tree []) + 3)) by reflexivity.
  assert (Ho : (3 < length (entity_nodes ("IFCWALL",
                     Some [("Pset_WallCommon", PsetDict ["LoadBearing"; "IsExternal"])])))%nat)
    by (vm_compute; lia).
  assert (Hk : 3%nat = 0%nat \/ "IFCWALL" <> "") by (right; discriminate).
  exact (proj1 (proj2 (built_tree_match_reports_owner _ _ _ _ _ _ Hnodes Hidx Ho Hk))).
Defined.

(** *** The analysis operator *)



End MatchPanelFacts.

(** ** The patch engine *)

Module PatchEngineFacts.
Import PatchEngine.

(** *** The replacement loop *)

(** Without a configured old value that coerces to the current value, the
    loop writes nothing, also when a coercion raises on the way. *)
Lemma replace_loop_no_match pv items stored :
  (forall old new v, (old, new) ∈ items ->
     construct_like pv (PStr old) = inr v -> py_eqb pv v = false) ->
  fst (replace_loop pv items stored) = stored.
Proof.
  revert stored. induction items as [|[old new] items IH]; intros stored Hno; simpl.
  - reflexivity.
  - destruct (construct_like pv (PStr old)) as [e|v] eqn:Hold; [reflexivity|].
    rewrite (Hno old new v) by (done || constructor).
    apply IH. intros o n v' Hin. apply (Hno o n v'). by constructor.
Qed.

(** Whatever the loop leaves in the literal is either what was there or
    the coercion of a configured new value whose old value, coerced,
    equals the current value. *)
Lemma replace_loop_writes pv items stored :
  fst (replace_loop pv items stored) = stored \/
  exists old new old' new',
    (old, new) ∈ items /\
    construct_like pv (PStr old) = inr old' /\ py_eqb pv old' = true /\
    construct_like pv new = inr new' /\
    fst (replace_loop pv items stored) = new'.
Proof.
  revert stored. induction items as [|[old new] items IH]; intros stored; simpl.
  - by left.
  - destruct (construct_like pv (PStr old)) as [e|old'] eqn:Hold; [by left|].
    destruct (py_eqb pv old') eqn:Heq.
    + destruct (construct_like pv new) as [e|new'] eqn:Hnew; [by left|].
      destruct (IH new') as [Hkeep|(o & n & o' & n' & Hin & H1 & H2 & H3 & H4)].
      * right. exists old, new, old', new'. rewrite Hkeep.
        repeat split; try done. constructor.
      * right. exists o, n, o', n'. repeat split; try done. by constructor.
    + destruct (IH stored) as [Hkeep|(o & n & o' & n' & Hin & H1 & H2 & H3 & H4)].
      * by left.
      * right. exists o, n, o', n'. repeat split; try done. by constructor.
Qed.

(** *** The handler on a configured single-value property *)

Lemma handle_configured p (pvs : gmap string config_entry) c pv items :
  is_a p = IfcPropertySingleValue ->
  NominalValue p = Some pv ->
  pvs !! Name p = Some (CfgDict c) ->
  replace_values c = Some items ->
  handle_property_single_value p pvs =
    (set_wrappedValue (renamed p c) (fst (replace_loop pv items pv)),
     snd (replace_loop pv items pv)).
Proof.
  intros Hisa Hnom Hcfg Hitems.
  unfold handle_property_single_value, renamed. rewrite Hcfg.
  destruct (replace_name c) as [new_name|];
    unfold replace_values_step; simpl; rewrite Hisa, Hnom, Hcfg, Hitems;
    by destruct (replace_loop pv items pv).
Qed.

Lemma handle_keeps_literal_or_configured p (pvs : gmap string config_entry) :
  NominalValue (fst (handle_property_single_value p pvs)) = NominalValue p \/
  exists c pv items,
    is_a p = IfcPropertySingleValue /\ NominalValue p = Some pv /\
    pvs !! Name p = Some (CfgDict c) /\ replace_values c = Some items.
Proof.
  unfold handle_property_single_value.
  assert (Hstep : forall q,
    is_a q = is_a p -> NominalValue q = NominalValue p ->
    NominalValue (fst (replace_values_step (Name p) q pvs)) = NominalValue p \/
    exists c pv items,
      is_a p = IfcPropertySingleValue /\ NominalValue p = Some pv /\
      pvs !! Name p = Some (CfgDict c) /\ replace_values c = Some items).
  { intros q Hq1 Hq2. unfold replace_values_step. rewrite Hq1, Hq2.
    destruct (is_a p) eqn:Hisa; [|by left].
    destruct (NominalValue p) as [pv|] eqn:Hnom; [|by left].
    destruct (pvs !! Name p) as [[| |c]|] eqn:Hcfg; try by left.
    destruct (replace_values c) as [items|] eqn:Hitems; [|by left].
    right. by exists c, pv, items. }
  destruct (pvs !! Name p) as [[| |c]|] eqn:Hcfg; try (by apply Hstep); [by left|].
  destruct (replace_name c); by apply Hstep.
Qed.

Lemma construct_like_type v x w :
  construct_like v x = inr w -> type_of w = type_of v.
Proof.
  destruct v; simpl; try (intros [= <-]; reflexivity).
  destruct (py_int x); intros [= <-]. reflexivity.
Qed.

Lemma replace_values_step_Name n q (pvs : gmap string config_entry) :
  Name (fst (replace_values_step n q pvs)) = Name q.
Proof.
  unfold replace_values_step.
  destruct (is_a q), (NominalValue q) as [pv|]; try done.
  destruct (pvs !! n) as [[| |c]|]; try done.
  destruct (replace_values c) as [items|]; [|done].
  by destruct (replace_loop pv items pv).
Qed.

(** *** Value replacement *)

(** C2: a single-value property holding the integer 2, configured with
    [replace_values {"2": "3"}], ends up holding the integer 3.  In general
    the literal is either left as it was or overwritten with a configured
    new value coerced to the runtime type of the current value, for a pair
    whose old value, coerced to that type, equals the current value; so a
    property whose current value equals no coerced old value keeps its
    literal. *)
Theorem value_replacement_coerces_to_runtime_type
    (p : property) (pvs : gmap string config_entry) :
  (forall c,
     is_a p = IfcPropertySingleValue -> NominalValue p = Some (PInt 2) ->
     pvs !! Name p = Some (CfgDict c) ->
     replace_values c = Some [("2", PStr "3")] ->
     NominalValue (fst (handle_property_single_value p pvs)) = Some (PInt 3) /\
     snd (handle_property_single_value p pvs) = Returned) /\
  (NominalValue (fst (handle_property_single_value p pvs)) = NominalValue p \/
   exists c pv items old new old' new',
     pvs !! Name p = Some (CfgDict c) /\ replace_values c = Some items /\
     NominalValue p = Some pv /\ (old, new) ∈ items /\
     construct_like pv (PStr old) = inr old' /\ py_eqb pv old' = true /\
     construct_like pv new = inr new' /\ type_of new' = type_of pv /\
     NominalValue (fst (handle_property_single_value p pvs)) = Some new') /\
  ((forall c pv items old new v,
      pvs !! Name p = Some (CfgDict c) -> replace_values c = Some items ->
      NominalValue p = Some pv -> (old, new) ∈ items ->
      construct_like pv (PStr old) = inr v -> py_eqb pv v = false) ->
   NominalValue (fst (handle_property_single_value p pvs)) = NominalValue p).
Proof.
  assert (Hwritten :
    NominalValue (fst (handle_property_single_value p pvs)) = NominalValue p \/
    exists c pv items old new old' new',
      pvs !! Name p = Some (CfgDict c) /\ replace_values c = Some items /\
      NominalValue p = Some pv /\ (old, new) ∈ items /\
      construct_like pv (PStr old) = inr old' /\ py_eqb pv old' = true /\
      construct_like pv new = inr new' /\ type_of new' = type_of pv /\
      NominalValue (fst (handle_property_single_value p pvs)) = Some new').
  { destruct (handle_keeps_literal_or_configured p pvs)
      as [Hkeep|(c & pv & items & Hisa & Hnom & Hcfg & Hitems)]; [by left|].
    rewrite (handle_configured p pvs c pv items) by done. simpl.
    destruct (replace_loop_writes pv items pv)
      as [Hkeep|(old & new & old' & new' & Hin & H1 & H2 & H3 & H4)].
    - left. by rewrite Hkeep.
    - right. exists c, pv, items, old, new, old', new'.
      repeat split; try done.
      + by eapply construct_like_type.
      + by rewrite H4. }
  split; [|split].
  - intros c Hisa Hnom Hcfg Hitems.
    by rewrite (handle_configured p pvs c (PInt 2) _ Hisa Hnom Hcfg Hitems).
  - exact Hwritten.
  - intros Hno.
    destruct Hwritten
      as [Hkeep|(c & pv & items & old & new & old' & new' &
                 Hcfg & Hitems & Hnom & Hin & H1 & H2 & _)]; [done|].
    rewrite (Hno c pv items old new old' Hcfg Hitems Hnom Hin H1) in H2.
    discriminate H2.
Qed.

Lemma value_replacement_coerces_to_runtime_type_witness :
  let p := Property "FireRating" IfcPropertySingleValue (Some (PInt 2)) in
  let c := PropertyConfig None (Some [("2", PStr "3")]) in
  NominalValue (fst (handle_property_single_value p {[ "FireRating" := CfgDict c ]}))
    = Some (PInt 3).
Proof.
  intros p c.
  exact (proj1 (proj1 (value_replacement_coerces_to_runtime_type
                         p {[ "FireRating" := CfgDict c ]})
                  c eq_refl eq_refl eq_refl eq_refl)).
Defined.

(** *** Renaming and value replacement in one run *)

(** C9: when the configuration found under a property's name renames it,
    the property ends up with the new name, and its value replacements
    are still those configured under the original name: the literal is
    the one the unrenamed property would get, and the outcome depends on
    the entry under the original name only, so nothing configured under
    the new name is applied. *)
Theorem rename_keeps_original_name_for_values
    (p : property) (pvs : gmap string config_entry) c new_name :
  pvs !! Name p = Some (CfgDict c) ->
  replace_name c = Some new_name ->
  Name (fst (handle_property_single_value p pvs)) = new_name /\
  (forall pv items,
     is_a p = IfcPropertySingleValue -> NominalValue p = Some pv ->
     replace_values c = Some items ->
     handle_property_single_value p pvs =
       (set_wrappedValue (set_Name p new_name) (fst (replace_loop pv items pv)),
        snd (replace_loop pv items pv))) /\
  NominalValue (fst (handle_property_single_value p pvs)) =
    NominalValue (fst (handle_property_single_value p
      (<[Name p := CfgDict (PropertyConfig None (replace_values c))]> pvs))) /\
  (forall pvs' : gmap string config_entry,
     pvs' !! Name p = pvs !! Name p ->
     handle_property_single_value p pvs' = handle_property_single_value p pvs) /\
  (forall entry,
     new_name <> Name p ->
     handle_property_single_value p (<[new_name := entry]> pvs) =
       handle_property_single_value p pvs).
Proof.
  intros Hcfg Hname.
  assert (Hlocal : forall pvs' : gmap string config_entry,
    pvs' !! Name p = pvs !! Name p ->
    handle_property_single_value p pvs' = handle_property_single_value p pvs).
  { intros pvs' Heq. unfold handle_property_single_value, replace_values_step.
    by rewrite Heq. }
  split; [|split; [|split; [|split]]].
  - unfold handle_property_single_value. rewrite Hcfg, Hname.
    by rewrite replace_values_step_Name.
  - intros pv items Hisa Hnom Hitems.
    rewrite (handle_configured p pvs c pv items) by done.
    unfold renamed. by rewrite Hname.
  - unfold handle_property_single_value, replace_values_step.
    rewrite Hcfg, Hname, lookup_insert_eq. simpl.
    destruct (is_a p), (NominalValue p) as [pv|]; try done.
    destruct (replace_values c) as [items|]; [|done].
    by destruct (replace_loop pv items pv).
  - exact Hlocal.
  - intros entry Hne. apply Hlocal. by rewrite lookup_insert_ne.
Qed.

Lemma rename_keeps_original_name_for_values_witness :
  handle_property_single_value old_property rename_config =
    (Property "New" IfcPropertySingleValue (Some (PInt 3)), Returned).
Proof.
  assert (Hcfg : rename_config !! Name old_property =
                 Some (CfgDict (PropertyConfig (Some "New") (Some [("2", PStr "3")]))))
    by (vm_compute; reflexivity).
  destruct (rename_keeps_original_name_for_values
              old_property rename_config _ "New" Hcfg eq_refl) as (_ & H & _).
  exact (H (PInt 2) [("2", PStr "3")] eq_refl eq_refl eq_refl).
Defined.

(** *** The output path *)

(** When [".ifc"] occurs in the input path at its end only, the output is
    the sibling [<stem>_fixed.ifc]. *)
Lemma output_file_suffix_only stem :
  ifc_only_at_end stem = true ->
  output_file (stem +:+ ".ifc") = stem +:+ "_fixed.ifc".
Proof.
  unfold output_file, str_replace.
  induction stem as [|ch stem IH]; intros Hocc; [reflexivity|].
  cbn [ifc_only_at_end] in Hocc. apply andb_prop in Hocc as [Hhere Hrest].
  apply negb_true_iff in Hhere.
  change (String ch stem +:+ ".ifc") with (String ch (stem +:+ ".ifc")) in *.
  cbn [str_replace_from]. rewrite Hhere.
  change (String ch stem +:+ "_fixed.ifc") with (String ch (stem +:+ "_fixed.ifc")).
  f_equal. by apply IH.
Qed.

(** C3 fails on the code: [str.replace] rewrites every occurrence of
    [".ifc"], so for a model below a directory whose name contains
    [".ifc"] the output path is not the sibling [model_fixed.ifc]. *)
Theorem output_file_rewrites_inner_occurrence :
  output_file "/data/my.ifc_files/model.ifc" = "/data/my_fixed.ifc_files/model_fixed.ifc" /\
  output_file "/data/my.ifc_files/model.ifc" <> "/data/my.ifc_files/model_fixed.ifc" /\
  output_file "/data/models/model.ifc" = "/data/models/model_fixed.ifc".
Proof. repeat split; [discriminate]. Qed.

(** *** Order of the configured pairs *)

Lemma replace_loop_app pv items1 items2 stored :
  replace_loop pv (items1 ++ items2) stored =
    match replace_loop pv items1 stored with
    | (stored1, Returned) => replace_loop pv items2 stored1
    | r => r
    end.
Proof.
  revert stored. induction items1 as [|[old new] items1 IH]; intros stored; simpl.
  - reflexivity.
  - destruct (construct_like pv (PStr old)) as [e|old']; [reflexivity|].
    destruct (py_eqb pv old'); [|apply IH].
    destruct (construct_like pv new) as [e|new']; [reflexivity|apply IH].
Qed.

Lemma replace_loop_returned_prefix pv items1 items2 stored :
  snd (replace_loop pv (items1 ++ items2) stored) = Returned ->
  snd (replace_loop pv items1 stored) = Returned.
Proof.
  rewrite replace_loop_app.
  by destruct (replace_loop pv items1 stored) as [stored1 [|e]].
Qed.

(** X6: the pairs of [replace_values] are all compared with the value the
    property had on entry, so replacements do not chain, and when several
    old values coerce to that value the last such pair decides: if the
    handler returns, the literal is the coerced new value of the last
    matching pair. *)
Theorem last_matching_pair_decides
    (p : property) (pvs : gmap string config_entry) c pv pre old new post old' new' :
  is_a p = IfcPropertySingleValue ->
  NominalValue p = Some pv ->
  pvs !! Name p = Some (CfgDict c) ->
  replace_values c = Some (pre ++ (old, new) :: post) ->
  snd (handle_property_single_value p pvs) = Returned ->
  construct_like pv (PStr old) = inr old' -> py_eqb pv old' = true ->
  construct_like pv new = inr new' ->
  (forall o n v, (o, n) ∈ post ->
     construct_like pv (PStr o) = inr v -> py_eqb pv v = false) ->
  NominalValue (fst (handle_property_single_value p pvs)) = Some new'.
Proof.
  intros Hisa Hnom Hcfg Hitems Hret Hold Heq Hnew Hpost.
  rewrite (handle_configured p pvs c pv _ Hisa Hnom Hcfg Hitems) in *.
  simpl in *. f_equal.
  pose proof (replace_loop_returned_prefix _ _ _ _ Hret) as Hpre.
  rewrite replace_loop_app.
  destruct (replace_loop pv pre pv) as [stored1 o1]. simpl in Hpre. subst o1.
  simpl. rewrite Hold, Heq, Hnew.
  by apply replace_loop_no_match.
Qed.

Lemma last_matching_pair_decides_witness :
  let p := Property "Storey" IfcPropertySingleValue (Some (PInt 2)) in
  let c := PropertyConfig None (Some [("2", PStr "3"); ("3", PStr "4")]) in
  NominalValue (fst (handle_property_single_value p {[ "Storey" := CfgDict c ]}))
    = Some (PInt 3).
Proof.
  intros p c.
  exact (last_matching_pair_decides p {[ "Storey" := CfgDict c ]} c (PInt 2)
           [] "2" (PStr "3") [("3", PStr "4")] (PInt 2) (PInt 3)
           eq_refl eq_refl eq_refl eq_refl eq_refl eq_refl eq_refl eq_refl
           ltac:(intros o n v Hin;
                 apply list_elem_of_singleton in Hin; injection Hin as -> ->;
                 intros [= <-]; reflexivity)).
Defined.

(** *** How the handler can fail *)






(** *** Loops that stop at the first exception *)

Section Aborting.
Context {E A B : Type} (f : E + A -> B -> E + A).
Hypothesis f_inl : forall e b, f (inl e) b = inl e.

Lemma foldl_aborted l e : foldl f (inl e) l = inl e.
Proof. induction l as [|b l IH]; simpl; [done|]. by rewrite f_inl. Qed.

Lemma foldl_completed (P : A -> Prop) l a a' :
  (forall a1 b a2, b ∈ l -> P a1 -> f (inr a1) b = inr a2 -> P a2) ->
  P a -> foldl f (inr a) l = inr a' -> P a'.
Proof.
  revert a. induction l as [|b l IH]; intros a Hstep Ha; simpl.
  - by intros [= <-].
  - destruct (f (inr a) b) as [e|a1] eqn:Hb.
    + by rewrite foldl_aborted.
    + apply IH.
      * intros a2 b' a3 Hin. apply Hstep. by constructor.
      * apply (Hstep a b a1); [constructor|done..].
Qed.

Lemma foldl_aborts_at l1 b l2 a e :
  (forall a1, f (inr a1) b = inl e) ->
  exists e', foldl f (inr a) (l1 ++ b :: l2) = inl e'.
Proof.
  intros Hb. rewrite foldl_app. simpl.
  destruct (foldl f (inr a) l1) as [e'|a1].
  - exists e'. by rewrite f_inl, foldl_aborted.
  - exists e. by rewrite Hb, foldl_aborted.
Qed.

End Aborting.

Lemma process_relationship_inl cfg e r : process_relationship cfg (inl e) r = inl e.
Proof. done. Qed.

Lemma process_instance_inl cfg e i : process_instance cfg (inl e) i = inl e.
Proof.
  unfold process_instance. destruct (IsDefinedBy i); [|done].
  apply foldl_aborted, process_relationship_inl.
Qed.

Lemma process_type_inl capped m e item : process_type capped m (inl e) item = inl e.
Proof. by destruct item. Qed.

(** *** The patch keeps the shape of the model *)

Lemma replace_values_step_is_a n q (pvs : gmap string config_entry) :
  is_a (fst (replace_values_step n q pvs)) = is_a q.
Proof.
  unfold replace_values_step.
  destruct (is_a q) eqn:Hq, (NominalValue q) as [pv|]; try done.
  destruct (pvs !! n) as [[| |c]|]; try done.
  destruct (replace_values c) as [items|]; [|done].
  by destruct (replace_loop pv items pv).
Qed.

Lemma handle_is_a p (pvs : gmap string config_entry) :
  is_a (fst (handle_property_single_value p pvs)) = is_a p.
Proof.
  unfold handle_property_single_value.
  destruct (pvs !! Name p) as [[| |c]|]; try apply replace_values_step_is_a; [done|].
  destruct (replace_name c) as [new_name|]; [|apply replace_values_step_is_a].
  by rewrite replace_values_step_is_a.
Qed.

Lemma handle_properties_shape props (pvs : gmap string config_entry) props' :
  handle_properties props pvs = inr props' ->
  Forall2 (fun p p' => is_a p = is_a p') props props'.
Proof.
  revert props'. induction props as [|p props IH]; intros props'; simpl.
  - intros [= <-]. constructor.
  - destruct (handle_property_single_value p pvs) as [p1 [|e]] eqn:Hp; [|discriminate].
    destruct (handle_properties props pvs) as [e|rest]; [discriminate|].
    intros [= <-]. constructor; [|by apply IH].
    by rewrite <- (handle_is_a p pvs), Hp.
Qed.

Lemma same_shape_refl ps : same_shape ps ps.
Proof.
  unfold same_shape. destruct (HasProperties ps) as [props|]; [|done].
  induction props; by constructor.
Qed.

Lemma same_shape_trans ps1 ps2 ps3 :
  same_shape ps1 ps2 -> same_shape ps2 ps3 -> same_shape ps1 ps3.
Proof.
  unfold same_shape.
  destruct (HasProperties ps1) as [l1|], (HasProperties ps2) as [l2|],
    (HasProperties ps3) as [l3|]; try done.
  intros H12 H23. revert l3 H23.
  induction H12 as [|p1 p2 l1 l2 Hp H12 IH]; intros l3 H23.
  - by inversion H23.
  - inversion H23 as [|? p3 ? l3' Hp' H23']; subst.
    constructor; [congruence|by apply IH].
Qed.

Lemma patch_property_set_shape cfg ps ps' :
  patch_property_set cfg ps = inr ps' -> same_shape ps ps'.
Proof.
  unfold patch_property_set.
  destruct (pset_Name ps) as [nm|]; [|intros [= <-]; apply same_shape_refl].
  destruct (properties_values cfg !! nm) as [d|]; [|intros [= <-]; apply same_shape_refl].
  destruct (d !! "replace_name") as [[|new_name| |c]|]; simpl; try discriminate;
    (destruct (HasProperties ps) as [props|] eqn:Hprops; [|discriminate];
     destruct (handle_properties props (to_config_entry <$> d)) as [e|props'] eqn:Hh;
       [discriminate|];
     intros [= <-]; unfold same_shape; rewrite Hprops; simpl;
     by eapply handle_properties_shape).
Qed.

Lemma keeps_shape_refl store : keeps_shape store store.
Proof. split; [done|]. intros id ps Hid. exists ps. split; [done|apply same_shape_refl]. Qed.

Lemma process_relationship_shape cfg store0 store r store' :
  keeps_shape store0 store ->
  process_relationship cfg (inr store) r = inr store' ->
  keeps_shape store0 store'.
Proof.
  intros [Hdom Hshape]. destruct r as [id|]; simpl; [|by intros [= <-]].
  destruct (store !! id) as [ps|] eqn:Hid; [|by intros [= <-]].
  destruct (patch_property_set cfg ps) as [e|ps'] eqn:Hpatch; [discriminate|].
  intros [= <-]. split.
  - rewrite dom_insert_L, <- Hdom.
    assert (id ∈ dom store) by (apply elem_of_dom; eauto). set_solver.
  - intros id0 ps0 Hid0. destruct (Hshape id0 ps0 Hid0) as (ps1 & Hps1 & Hsame).
    destruct (decide (id = id0)) as [->|Hne].
    + rewrite lookup_insert_eq. exists ps'. split; [done|].
      rewrite Hid in Hps1. injection Hps1 as <-.
      eapply same_shape_trans; [done|]. by eapply patch_property_set_shape.
    + rewrite lookup_insert_ne by done. by exists ps1.
Qed.

Lemma process_instance_shape cfg store0 store i store' :
  keeps_shape store0 store ->
  process_instance cfg (inr store) i = inr store' ->
  keeps_shape store0 store'.
Proof.
  unfold process_instance. destruct (IsDefinedBy i) as [rels|]; [|by intros ? [= <-]].
  intros Hkeeps. apply foldl_completed; [apply process_relationship_inl| |done].
  intros s1 r s2 _. apply process_relationship_shape.
Qed.

Lemma process_type_shape capped m store0 store item store' :
  keeps_shape store0 store ->
  process_type capped m (inr store) item = inr store' ->
  keeps_shape store0 store'.
Proof.
  destruct item as [ifc_type cfg]. simpl.
  destruct (by_type m !! ifc_type) as [found|]; [|discriminate].
  intros Hkeeps. apply foldl_completed; [apply process_instance_inl| |done].
  intros s1 i s2 _. apply process_instance_shape.
Qed.

(** X8: when the patch completes, the model it writes goes to the output
    path and has the instances and the property sets of the input model,
    every property set with the same properties in the same order: the
    patch changes names and literals and never adds or removes a property
    set or a property. *)
Theorem patch_keeps_model_shape (capped : bool) (ifc_file : string) (m : ifc_model)
    (json_config : list (string * type_config)) path m' :
  process_ifc_file_with capped ifc_file m json_config = inr (path, m') ->
  path = output_file ifc_file /\
  by_type m' = by_type m /\
  keeps_shape (psets m) (psets m').
Proof.
  unfold process_ifc_file_with.
  destruct (foldl _ _ json_config) as [e|store] eqn:Hfold; [discriminate|].
  intros [= <- <-]. repeat split; try done; simpl;
    apply (foldl_completed (process_type capped m) (process_type_inl capped m)
             (keeps_shape (psets m)) json_config (psets m) store);
    try done; try apply keeps_shape_refl;
    intros s1 item s2 _; apply process_type_shape.
Qed.

Lemma patch_keeps_model_shape_witness :
  exists m',
    process_ifc_file "walls.ifc" shared_model (wall_fix 1) = inr ("walls_fixed.ifc", m') /\
    keeps_shape (psets shared_model) (psets m').
Proof.
  destruct (process_ifc_file "walls.ifc" shared_model (wall_fix 1))
    as [e|[path m']] eqn:Hrun; [vm_compute in Hrun; discriminate Hrun|].
  pose proof (patch_keeps_model_shape true _ _ _ _ _ Hrun) as (-> & _ & Hshape).
  exists m'. split; [reflexivity|exact Hshape].
Defined.

(** *** Property sets the patch does not visit *)






(** *** The instance cap *)

Lemma foldl_ext_in {A B} (f g : A -> B -> A) l a :
  (forall a' b, b ∈ l -> f a' b = g a' b) -> foldl f a l = foldl g a l.
Proof.
  revert a. induction l as [|b l IH]; intros a Hfg; simpl; [done|].
  rewrite Hfg by constructor. apply IH. intros a' b' Hb'. apply Hfg. by constructor.
Qed.

Lemma py_slice_to_all {A} (n : Z) (l : list A) :
  (Z.of_nat (length l) <= n)%Z -> py_slice_to n l = l.
Proof.
  intros Hn. unfold py_slice_to.
  replace (0 <=? n)%Z with true by (symmetry; apply Z.leb_le; lia).
  apply take_ge. lia.
Qed.

(** X10: the script caps the instances of a type by [config['instances']]
    and the panels do not.  With every cap at least the number of
    instances of its type the two write the same model; with every cap 0
    the script, if it completes, writes the model unchanged. *)
Theorem instance_cap_of_the_script (ifc_file : string) (m : ifc_model)
    (json_config : list (string * type_config)) :
  ((forall t c found, (t, c) ∈ json_config -> by_type m !! t = Some found ->
      (Z.of_nat (length found) <= instances c)%Z) ->
   process_ifc_file ifc_file m json_config =
     process_ifc_file_panel ifc_file m json_config) /\
  ((forall t c, (t, c) ∈ json_config -> instances c = 0%Z) ->
   forall r, process_ifc_file ifc_file m json_config = inr r ->
     r = (output_file ifc_file, m)).
Proof.
  unfold process_ifc_file, process_ifc_file_panel, process_ifc_file_with. split.
  - intros Hcap.
    rewrite (foldl_ext_in (process_type true m) (process_type false m)); [done|].
    intros st [t c] Hin. simpl. destruct st as [e|store]; [done|].
    destruct (by_type m !! t) as [found|] eqn:Ht; [|done].
    by rewrite (py_slice_to_all _ _ (Hcap t c found Hin Ht)).
  - intros Hzero r.
    destruct (foldl _ _ json_config) as [e|store] eqn:Hfold; [discriminate|].
    intros [= <-]. f_equal.
    assert (Hstore : store = psets m).
    { apply (foldl_completed (process_type true m) (process_type_inl true m)
               (fun s => s = psets m) json_config (psets m) store); try done.
      intros s1 [t c] s2 Hin -> . simpl.
      destruct (by_type m !! t) as [found|]; [|discriminate].
      rewrite (Hzero t c Hin). unfold py_slice_to. simpl. by intros [= <-]. }
    rewrite Hstore. by destruct m.
Qed.

Lemma instance_cap_of_the_script_witness :
  process_ifc_file "walls.ifc" shared_model (wall_fix 2) =
    process_ifc_file_panel "walls.ifc" shared_model (wall_fix 2) /\
  process_ifc_file "walls.ifc" shared_model (wall_fix 0) =
    inr ("walls_fixed.ifc", shared_model).
Proof.
  split.
  - apply (proj1 (instance_cap_of_the_script "walls.ifc" shared_model (wall_fix 2))).
    intros t c found Hin.
    apply list_elem_of_singleton in Hin. injection Hin as -> ->.
    intros Hfound. vm_compute in Hfound. injection Hfound as <-. simpl. lia.
  - destruct (process_ifc_file "walls.ifc" shared_model (wall_fix 0))
      as [e|r] eqn:Hrun; [vm_compute in Hrun; discriminate Hrun|].
    f_equal.
    apply (proj2 (instance_cap_of_the_script "walls.ifc" shared_model (wall_fix 0)));
      [|exact Hrun].
    intros t c Hin. apply list_elem_of_singleton in Hin. by injection Hin as -> ->.
Defined.

(** *** Shared property sets *)

(** X11: a property set the configuration renames is patched by the first
    relationship that reaches it; when the new name is not configured
    itself, every later relationship to the same set leaves the model as
    it is. *)
Theorem renamed_set_is_patched_once (cfg : type_config)
    (store store1 : gmap nat property_set) (id : nat) ps set_name d new_name :
  store !! id = Some ps ->
  pset_Name ps = Some set_name ->
  properties_values cfg !! set_name = Some d ->
  d !! "replace_name" = Some (EntryStr new_name) ->
  properties_values cfg !! new_name = None ->
  process_relationship cfg (inr store) (IfcRelDefinesByProperties id) = inr store1 ->
  (exists ps1, store1 !! id = Some ps1 /\ pset_Name ps1 = Some new_name) /\
  process_relationship cfg (inr store1) (IfcRelDefinesByProperties id) = inr store1.
Proof.
  intros Hid Hname Hd Hrename Hnew. simpl. rewrite Hid.
  unfold patch_property_set at 1. rewrite Hname, Hd, Hrename.
  destruct (HasProperties ps) as [props|]; [|discriminate].
  destruct (handle_properties props (to_config_entry <$> d)) as [e|props']; [discriminate|].
  intros [= <-]. rewrite lookup_insert_eq. split; [eauto|].
  unfold patch_property_set. simpl. rewrite Hnew. by rewrite insert_insert_eq.
Qed.

Lemma renamed_set_is_patched_once_witness :
  exists store1,
    process_relationship (wall_config 2) (inr (psets shared_model))
      (IfcRelDefinesByProperties 7) = inr store1 /\
    process_relationship (wall_config 2) (inr store1)
      (IfcRelDefinesByProperties 7) = inr store1.
Proof.
  destruct (process_relationship (wall_config 2) (inr (psets shared_model))
              (IfcRelDefinesByProperties 7))
    as [e|store1] eqn:Hrun; [vm_compute in Hrun; discriminate Hrun|].
  exists store1. split; [reflexivity|].
  refine (proj2 (renamed_set_is_patched_once _ (psets shared_model) store1 7
                   shared_pset "Pset_WallCommon" _ "Pset_WallFixed"
                   _ eq_refl _ _ _ Hrun)); vm_compute; reflexivity.
Defined.

(** *** Unknown type names *)

(** X12: a type name of the configuration that the schema of the model
    does not know makes the patch fail, wherever it stands in the
    configuration, so nothing is written. *)
Theorem unknown_type_aborts_patch (capped : bool) (ifc_file : string) (m : ifc_model)
    (json_config : list (string * type_config)) t c :
  (t, c) ∈ json_config ->
  by_type m !! t = None ->
  exists e, process_ifc_file_with capped ifc_file m json_config = inl e.
Proof.
  intros Hin Ht. apply list_elem_of_split in Hin as (l1 & l2 & ->).
  unfold process_ifc_file_with.
  destruct (foldl_aborts_at (process_type capped m) (process_type_inl capped m)
              l1 (t, c) l2 (psets m) (NotInSchema t)) as (e & ->).
  - intros store. simpl. by rewrite Ht.
  - by exists e.
Qed.

Lemma unknown_type_aborts_patch_witness :
  exists e,
    process_ifc_file_with false "walls.ifc" shared_model
      (wall_fix 1 ++ [("IfcWal", TypeConfig 1 ∅)]) = inl e.
Proof.
  apply (unknown_type_aborts_patch false "walls.ifc" shared_model _
           "IfcWal" (TypeConfig 1 ∅)).
  - apply list_elem_of_lookup_2 with 1%nat. reflexivity.
  - vm_compute. reflexivity.
Defined.

End PatchEngineFacts.

(** ** The analyzer recipe *)

Module AnalyzerFacts.
Import Analyzer.

(** *** [sorted(..., reverse=True)] *)

Section Sorting.
Context {A : Type} (key : A -> Z).

Local Abbreviation desc := (descending key).

Lemma insert_desc_perm x l : insert_desc key x l ≡ₚ x :: l.
Proof.
  induction l as [|y l IH]; simpl; [done|].
  destruct (key y <=? key x)%Z; [done|].
  rewrite IH. apply Permutation_swap.
Qed.

Lemma sorted_desc_perm l : sorted_desc key l ≡ₚ l.
Proof.
  induction l as [|x l IH]; simpl; [done|].
  by rewrite insert_desc_perm, IH.
Qed.

Lemma insert_desc_sorted x l :
  StronglySorted desc l -> StronglySorted desc (insert_desc key x l).
Proof.
  induction l as [|y l IH]; intros Hs; simpl.
  - by repeat constructor.
  - apply StronglySorted_inv in Hs as [Hl Hy].
    destruct (key y <=? key x)%Z eqn:Hle.
    + apply Z.leb_le in Hle. constructor; [by constructor|].
      constructor; [done|].
      eapply Forall_impl; [exact Hy|]. unfold descending. intros z Hz. lia.
    + apply Z.leb_gt in Hle. constructor; [by apply IH|].
      rewrite insert_desc_perm. constructor; [unfold descending; lia|done].
Qed.

Lemma sorted_desc_sorted l : StronglySorted desc (sorted_desc key l).
Proof.
  induction l as [|x l IH]; simpl; [constructor|].
  by apply insert_desc_sorted.
Qed.

Lemma take_sorted_desc_top_n n l : top_n key n l (take n (sorted_desc key l)).
Proof.
  exists (drop n (sorted_desc key l)). split; [|split].
  - by rewrite take_drop, sorted_desc_perm.
  - by rewrite length_take, sorted_desc_perm.
  - intros x y Hx Hy.
    apply (StronglySorted_app_1_elem_of desc
             (take n (sorted_desc key l)) (drop n (sorted_desc key l))); [|done..].
    rewrite take_drop. apply sorted_desc_sorted.
Qed.

Lemma elem_of_take_sorted_desc n l x :
  x ∈ take n (sorted_desc key l) -> x ∈ l.
Proof.
  intros Hx. rewrite <- (sorted_desc_perm l).
  rewrite <- (take_drop n (sorted_desc key l)). apply elem_of_app. by left.
Qed.

End Sorting.

(** *** The cardinality rule, on integers *)

Lemma cardinality_of_Z prop_count pset_count :
  cardinality_of prop_count pset_count =
    if (2 * prop_count <? pset_count)%Z then "optional" else "required".
Proof.
  unfold cardinality_of.
  destruct (Qlt_le_dec _ _) as [Hlt|Hle];
    unfold Qlt, Qle in *; simpl in *;
    destruct (2 * prop_count <? pset_count)%Z eqn:E; try reflexivity;
    [apply Z.ltb_ge in E | apply Z.ltb_lt in E]; lia.
Qed.

Lemma cardinality_of_half prop_count pset_count :
  (cardinality_of prop_count pset_count = "required" <->
     (inject_Z pset_count * (50 # 100) <= inject_Z prop_count)%Q) /\
  (cardinality_of prop_count pset_count = "optional" <->
     ~ (inject_Z pset_count * (50 # 100) <= inject_Z prop_count)%Q).
Proof.
  rewrite cardinality_of_Z.
  assert (Hq : (inject_Z pset_count * (50 # 100) <= inject_Z prop_count)%Q <->
               (pset_count <= 2 * prop_count)%Z)
    by (unfold Qle; simpl; lia).
  rewrite Hq.
  destruct (2 * prop_count <? pset_count)%Z eqn:E;
    [apply Z.ltb_lt in E | apply Z.ltb_ge in E];
    (split; split; intros H; try discriminate H; try reflexivity; lia).
Qed.

(** *** Inversion of the loop bodies *)

Lemma element_specification_inv include_geometry property_stats element_type stats spec :
  element_specification include_geometry property_stats (element_type, stats) = Some spec ->
  (2 <= es_count stats)%Z /\
  name spec = element_type +:+ " Requirements" /\
  applicability spec = [MkEntity element_type].
Proof.
  unfold element_specification.
  destruct (es_count stats <? 2)%Z eqn:E; [discriminate|].
  apply Z.ltb_ge in E. by intros [= <-].
Qed.

Lemma property_requirement_inv pset_name pset_count prop_name pinfo r :
  property_requirement pset_name pset_count (prop_name, pinfo) = Some r ->
  (2 <= pi_count pinfo)%Z /\
  r = Property prop_name pset_name (cardinality_of (pi_count pinfo) pset_count)
        (prop_name +:+ " should be consistently defined").
Proof.
  unfold property_requirement.
  destruct (2 <=? pi_count pinfo)%Z eqn:E; [|discriminate].
  apply Z.leb_le in E. by intros [= <-].
Qed.

Lemma pset_specification_inv pset_name info spec :
  pset_specification (pset_name, info) = Some spec ->
  (3 <= ps_count info)%Z /\
  name spec = pset_name +:+ " Properties" /\
  applicability spec = MkEntity <$> ps_elements info /\
  requirements spec =
    omap (property_requirement pset_name (ps_count info)) (critical_props info) /\
  requirements spec <> [].
Proof.
  unfold pset_specification.
  destruct (ps_count info <? 3)%Z eqn:E; [discriminate|].
  apply Z.ltb_ge in E.
  destruct (omap _ (critical_props info)) as [|r reqs] eqn:Hreqs; [discriminate|].
  by intros [= <-].
Qed.

(** What a specification of the property-set pass is made from. *)
Lemma property_specification_source property_stats spec :
  spec ∈ _create_property_specifications property_stats ->
  exists pset_name info,
    (pset_name, info) ∈ common_psets property_stats /\
    (pset_name, info) ∈ property_stats /\
    pset_specification (pset_name, info) = Some spec.
Proof.
  unfold _create_property_specifications. intros Hin.
  apply list_elem_of_omap in Hin as ([pset_name info] & Hin & Hspec).
  exists pset_name, info. repeat split; try done.
  by eapply elem_of_take_sorted_desc.
Qed.

Lemma property_requirement_source pset_name info spec r :
  pset_specification (pset_name, info) = Some spec ->
  r ∈ requirements spec ->
  exists prop_name pinfo,
    (prop_name, pinfo) ∈ critical_props info /\
    (prop_name, pinfo) ∈ ps_properties info /\
    (2 <= pi_count pinfo)%Z /\
    r = Property prop_name pset_name (cardinality_of (pi_count pinfo) (ps_count info))
          (prop_name +:+ " should be consistently defined").
Proof.
  intros Hspec Hr.
  apply pset_specification_inv in Hspec as (_ & _ & _ & Hreqs & _).
  rewrite Hreqs in Hr.
  apply list_elem_of_omap in Hr as ([prop_name pinfo] & Hin & Hreq).
  apply property_requirement_inv in Hreq as [Hcount ->].
  exists prop_name, pinfo. repeat split; try done.
  by eapply elem_of_take_sorted_desc.
Qed.

Lemma assoc_unique {V} (d : list (string * V)) k v1 v2 :
  NoDup d.*1 -> (k, v1) ∈ d -> (k, v2) ∈ d -> v1 = v2.
Proof.
  induction d as [|[k' v'] d IH]; simpl; intros Hnd H1 H2.
  - by apply elem_of_nil in H1.
  - apply NoDup_cons in Hnd as [Hk' Hnd].
    apply elem_of_cons in H1. apply elem_of_cons in H2.
    destruct H1 as [H1|H1], H2 as [H2|H2]; simplify_eq.
    + done.
    + exfalso. apply Hk'. apply list_elem_of_fmap. by exists (k', v2).
    + exfalso. apply Hk'. apply list_elem_of_fmap. by exists (k', v1).
    + by apply IH.
Qed.

(** *** Cardinality of property requirements *)

(** C4: every property requirement of a property-set specification is
    [required] exactly when the property's count is at least 50% of the
    count of its property set, and [optional] otherwise; with a total of
    10, a count of 6 is required and a count of 4 is optional. *)
Theorem property_cardinality_by_half
    (property_stats : list (string * pset_info)) (i : nat) spec (j : nat) r :
  _create_property_specifications property_stats !! i = Some spec ->
  requirements spec !! j = Some r ->
  (exists pset_name info prop_name pinfo card instr,
     (pset_name, info) ∈ property_stats /\
     (prop_name, pinfo) ∈ ps_properties info /\
     name spec = pset_name +:+ " Properties" /\
     r = Property prop_name pset_name card instr /\
     (card = "required" <->
        (inject_Z (ps_count info) * (50 # 100) <= inject_Z (pi_count pinfo))%Q) /\
     (card = "optional" <->
        ~ (inject_Z (ps_count info) * (50 # 100) <= inject_Z (pi_count pinfo))%Q)) /\
  cardinality_of 6 10 = "required" /\
  cardinality_of 4 10 = "optional".
Proof.
  intros Hspec Hr. split; [|by rewrite !cardinality_of_Z].
  apply list_elem_of_lookup_2 in Hspec, Hr.
  apply property_specification_source in Hspec as (pset_name & info & _ & Hin & Hspec).
  destruct (property_requirement_source _ _ _ _ Hspec Hr)
    as (prop_name & pinfo & _ & Hprop & _ & ->).
  apply pset_specification_inv in Hspec as (_ & Hname & _).
  exists pset_name, info, prop_name, pinfo,
    (cardinality_of (pi_count pinfo) (ps_count info)),
    (prop_name +:+ " should be consistently defined").
  repeat split; try done; apply cardinality_of_half.
Qed.

Lemma property_cardinality_by_half_witness :
  exists spec,
    _create_property_specifications example_property_stats !! 0%nat = Some spec /\
    requirements spec !! 0%nat =
      Some (Property "IsExternal" "Pset_WallCommon" "required"
              "IsExternal should be consistently defined") /\
    requirements spec !! 1%nat =
      Some (Property "LoadBearing" "Pset_WallCommon" "optional"
              "LoadBearing should be consistently defined") /\
    cardinality_of 6 10 = "required".
Proof.
  destruct (_create_property_specifications example_property_stats !! 0%nat)
    as [spec|] eqn:Hspec; [|vm_compute in Hspec; discriminate Hspec].
  assert (Hr0 : requirements spec !! 0%nat =
                Some (Property "IsExternal" "Pset_WallCommon" "required"
                        "IsExternal should be consistently defined"))
    by (vm_compute in Hspec; injection Hspec as <-; reflexivity).
  assert (Hr1 : requirements spec !! 1%nat =
                Some (Property "LoadBearing" "Pset_WallCommon" "optional"
                        "LoadBearing should be consistently defined"))
    by (vm_compute in Hspec; injection Hspec as <-; reflexivity).
  exists spec. split; [reflexivity|]. split; [exact Hr0|]. split; [exact Hr1|].
  exact (proj1 (proj2 (property_cardinality_by_half
                         example_property_stats 0 spec 0 _ Hspec Hr0))).
Defined.

(** *** Thresholds of the generation pass *)

(** C5: every specification of the generation pass is either an
    element-type specification, made for a type counted at least twice,
    or a property-set specification, made for one of the 5 property sets
    with the highest counts that is counted at least 3 times; each of its
    requirements is for one of the 3 properties of the set with the
    highest counts, counted at least twice.  A type counted less than
    twice gets no specification. *)
Theorem generation_thresholds (include_geometry : bool)
    (element_stats : list (string * element_stat))
    (property_stats : list (string * pset_info)) :
  (forall spec,
     spec ∈ _create_ids_specification include_geometry element_stats property_stats <->
     spec ∈ _create_element_specifications include_geometry element_stats property_stats \/
     spec ∈ _create_property_specifications property_stats) /\
  (forall spec,
     spec ∈ _create_element_specifications include_geometry element_stats property_stats ->
     exists element_type stats,
       (element_type, stats) ∈ element_stats /\ (2 <= es_count stats)%Z /\
       name spec = element_type +:+ " Requirements" /\
       applicability spec = [MkEntity element_type]) /\
  (forall element_type stats,
     (es_count stats < 2)%Z ->
     element_specification include_geometry property_stats (element_type, stats) = None) /\
  (forall element_type stats spec,
     NoDup element_stats.*1 ->
     (element_type, stats) ∈ element_stats -> (es_count stats < 2)%Z ->
     spec ∈ _create_element_specifications include_geometry element_stats property_stats ->
     applicability spec <> [MkEntity element_type]) /\
  top_n (fun x => ps_count (snd x)) 5 property_stats (common_psets property_stats) /\
  (forall info,
     top_n (fun x => pi_count (snd x)) 3 (ps_properties info) (critical_props info)) /\
  (forall spec,
     spec ∈ _create_property_specifications property_stats ->
     exists pset_name info,
       (pset_name, info) ∈ property_stats /\
       (pset_name, info) ∈ common_psets property_stats /\
       (3 <= ps_count info)%Z /\
       name spec = pset_name +:+ " Properties" /\
       forall r, r ∈ requirements spec ->
         exists prop_name pinfo card instr,
           (prop_name, pinfo) ∈ ps_properties info /\
           (prop_name, pinfo) ∈ critical_props info /\
           (2 <= pi_count pinfo)%Z /\
           r = Property prop_name pset_name card instr).
Proof.
  assert (Helem : forall spec,
    spec ∈ _create_element_specifications include_geometry element_stats property_stats ->
    exists element_type stats,
      (element_type, stats) ∈ element_stats /\ (2 <= es_count stats)%Z /\
      name spec = element_type +:+ " Requirements" /\
      applicability spec = [MkEntity element_type]).
  { intros spec Hin. unfold _create_element_specifications in Hin.
    apply list_elem_of_omap in Hin as ([element_type stats] & Hin & Hspec).
    apply element_specification_inv in Hspec as (Hcount & Hname & Happ).
    by exists element_type, stats. }
  split; [|split; [|split; [|split; [|split; [|split]]]]].
  - intros spec. unfold _create_ids_specification. apply elem_of_app.
  - exact Helem.
  - intros element_type stats Hlt. unfold element_specification.
    by replace (es_count stats <? 2)%Z with true by (symmetry; apply Z.ltb_lt; lia).
  - intros element_type stats spec Hnd Hin Hlt Hspec Happ.
    destruct (Helem spec Hspec) as (element_type' & stats' & Hin' & Hcount & _ & Happ').
    rewrite Happ in Happ'. injection Happ' as <-.
    rewrite (assoc_unique _ _ _ _ Hnd Hin Hin') in Hlt. lia.
  - apply take_sorted_desc_top_n.
  - intros info. apply take_sorted_desc_top_n.
  - intros spec Hin.
    apply property_specification_source in Hin as (pset_name & info & Htop & Hin & Hspec).
    exists pset_name, info.
    pose proof (pset_specification_inv _ _ _ Hspec) as (Hcount & Hname & _).
    repeat split; try done.
    intros r Hr.
    destruct (property_requirement_source _ _ _ _ Hspec Hr)
      as (prop_name & pinfo & Hcrit & Hprop & Hpc & ->).
    by eexists prop_name, pinfo, _, _.
Qed.

Lemma generation_thresholds_witness :
  exists spec,
    _create_property_specifications example_property_stats !! 0%nat = Some spec /\
    exists pset_name info,
      (pset_name, info) ∈ example_property_stats /\ (3 <= ps_count info)%Z /\
      name spec = pset_name +:+ " Properties".
Proof.
  destruct (_create_property_specifications example_property_stats !! 0%nat)
    as [spec|] eqn:Hspec; [|vm_compute in Hspec; discriminate Hspec].
  exists spec. split; [reflexivity|].
  destruct (proj2 (proj2 (proj2 (proj2 (proj2 (proj2
              (generation_thresholds false example_element_stats
                 example_property_stats))))))
              spec (list_elem_of_lookup_2 _ _ _ Hspec))
    as (pset_name & info & Hin & _ & Hcount & Hname & _).
  by exists pset_name, info.
Defined.

(** *** The include-geometry flag *)

(** C10: [execute] takes the truth value of the second argument, so
    every non-empty string, ["false"] included, turns the flag on; the
    command-line form turns it on exactly for a fourth word that reads
    ["true"] when lower-cased. *)
Theorem execute_flag_is_truthiness :
  (forall out a rest, include_geometry (execute (out :: a :: rest)) = py_bool a) /\
  (forall out s rest,
     s <> "" -> include_geometry (execute (out :: PStr s :: rest)) = true) /\
  include_geometry (execute [PStr "requirements.ids"; PStr "false"]) = true /\
  (forall arguments,
     (length arguments <= 1)%nat -> include_geometry (execute arguments) = false) /\
  (forall prog input out s rest,
     include_geometry ∘ snd <$> main (prog :: input :: out :: s :: rest)
       = Some (bool_decide (str_lower s = "true"))) /\
  include_geometry ∘ snd <$>
    main ["ifc2ids_recipe.py"; "model.ifc"; "requirements.ids"; "false"] = Some false /\
  include_geometry ∘ snd <$>
    main ["ifc2ids_recipe.py"; "model.ifc"; "requirements.ids"; "True"] = Some true /\
  include_geometry ∘ snd <$>
    main ["ifc2ids_recipe.py"; "model.ifc"; "requirements.ids"; "1"] = Some false.
Proof.
  repeat split.
  - intros out s rest Hs. simpl. by apply truthy_true.
  - intros arguments Hlen. unfold execute; simpl.
    by replace (1 <? length arguments)%nat with false
      by (symmetry; apply Nat.ltb_ge; lia).
  - intros prog input out s rest. simpl. f_equal.
    destruct (String.eqb_spec (str_lower s) "true") as [Heq|Hne].
    + by rewrite bool_decide_eq_true_2.
    + by rewrite bool_decide_eq_false_2.
Qed.

Lemma execute_flag_is_truthiness_witness :
  include_geometry (execute [PStr "requirements.ids"; PStr "no"]) = true.
Proof.
  exact (proj1 (proj2 execute_flag_is_truthiness)
           (PStr "requirements.ids") "no" [] ltac:(discriminate)).
Defined.

(** *** Ties in [sorted(..., reverse=True)] *)

Lemma insert_desc_filter {A} (key : A -> Z) (k : Z) x l :
  filter (fun y => key y = k) (insert_desc key x l) =
    filter (fun y => key y = k) (x :: l).
Proof.
  induction l as [|y l IH]; simpl; [done|].
  destruct (key y <=? key x)%Z eqn:Hle; [done|].
  apply Z.leb_gt in Hle.
  rewrite (filter_cons _ y), IH, !(filter_cons _ x), (filter_cons _ y).
  destruct (decide (key y = k)) as [Hy|Hy], (decide (key x = k)) as [Hx|Hx];
    try done. lia.
Qed.

(** X17: the descending sort keeps elements with equal keys in their
    original order, so among property sets with the same count the ones
    analysed first come first when the most common sets are chosen. *)
Theorem sorted_desc_stable {A} (key : A -> Z) (k : Z) (l : list A) :
  filter (fun y => key y = k) (sorted_desc key l) = filter (fun y => key y = k) l /\
  StronglySorted (descending key) (sorted_desc key l) /\
  sorted_desc key l ≡ₚ l.
Proof.
  split; [|split; [apply sorted_desc_sorted|apply sorted_desc_perm]].
  induction l as [|x l IH]; simpl; [done|].
  rewrite insert_desc_filter, !(filter_cons _ x), IH. done.
Qed.

(** *** Sizes of the generated specifications *)

Lemma length_omap_le {A B} (f : A -> option B) l :
  (length (omap f l) <= length l)%nat.
Proof.
  induction l as [|x l IH]; csimpl; [done|]. destruct (f x); simpl; lia.
Qed.

(** X18: the generation pass makes at most one specification per element
    type and at most 5 property-set specifications; an element-type
    specification applies to one entity and has at most 2 requirements, a
    property-set specification has between 1 and 3 requirements and
    applies to the element types recorded for its property set. *)
Theorem generation_size_bounds (include_geometry : bool)
    (element_stats : list (string * element_stat))
    (property_stats : list (string * pset_info)) :
  (length (_create_element_specifications include_geometry element_stats property_stats)
     <= length element_stats)%nat /\
  (length (_create_property_specifications property_stats) <= 5)%nat /\
  (forall spec,
     spec ∈ _create_element_specifications include_geometry element_stats property_stats ->
     length (applicability spec) = 1%nat /\ (length (requirements spec) <= 2)%nat) /\
  (forall spec,
     spec ∈ _create_property_specifications property_stats ->
     (1 <= length (requirements spec) <= 3)%nat /\
     exists pset_name info,
       (pset_name, info) ∈ property_stats /\
       applicability spec = MkEntity <$> ps_elements info).
Proof.
  split; [apply length_omap_le|]. split.
  { unfold _create_property_specifications, common_psets.
    etrans; [apply length_omap_le|]. rewrite length_take. lia. }
  split.
  - intros spec Hin. unfold _create_element_specifications in Hin.
    apply list_elem_of_omap in Hin as ([element_type stats] & _ & Hspec).
    unfold element_specification in Hspec.
    destruct (es_count stats <? 2)%Z; [discriminate|].
    injection Hspec as <-. simpl. split; [done|].
    rewrite length_app.
    destruct (include_geometry && _)%bool, (es_properties stats); simpl; lia.
  - intros spec Hin.
    apply property_specification_source in Hin as (pset_name & info & _ & Hin & Hspec).
    apply pset_specification_inv in Hspec as (_ & _ & Happ & Hreqs & Hne).
    split.
    + split; [destruct (requirements spec); [done|simpl; lia]|].
      rewrite Hreqs. etrans; [apply length_omap_le|].
      unfold critical_props. rewrite length_take. lia.
    + by exists pset_name, info.
Qed.

Lemma generation_size_bounds_witness :
  exists spec,
    _create_property_specifications example_property_stats !! 0%nat = Some spec /\
    (1 <= length (requirements spec) <= 3)%nat.
Proof.
  destruct (_create_property_specifications example_property_stats !! 0%nat)
    as [spec|] eqn:Hspec; [|vm_compute in Hspec; discriminate Hspec].
  exists spec. split; [reflexivity|].
  exact (proj1 (proj2 (proj2 (proj2
           (generation_size_bounds false example_element_stats example_property_stats)))
           spec (list_elem_of_lookup_2 _ _ _ Hspec))).
Defined.

(** *** The requirements of an element-type specification *)

Lemma max_from_spec {A} (key : A -> Z) best l :
  max_from key best l ∈ best :: l /\
  forall x, x ∈ best :: l -> (key x <= key (max_from key best l))%Z.
Proof.
  revert best. induction l as [|y l IH]; intros best; simpl.
  - split; [constructor|]. intros x Hx. apply list_elem_of_singleton in Hx as ->. lia.
  - destruct (IH (if (key best <? key y)%Z then y else best)) as [Hin Hmax].
    split.
    + apply elem_of_cons in Hin as [->|Hin].
      * destruct (key best <? key y)%Z; [right|]; constructor.
      * right. by right.
    + intros x Hx.
      assert (Hb : (key best <= key (if (key best <? key y)%Z then y else best))%Z)
        by (destruct (key best <? key y)%Z eqn:E; [apply Z.ltb_lt in E|]; lia).
      assert (Hy : (key y <= key (if (key best <? key y)%Z then y else best))%Z)
        by (destruct (key best <? key y)%Z eqn:E; [|apply Z.ltb_ge in E]; lia).
      apply elem_of_cons in Hx as [->|Hx].
      * etrans; [exact Hb|]. apply Hmax. constructor.
      * apply elem_of_cons in Hx as [->|Hx].
        -- etrans; [exact Hy|]. apply Hmax. constructor.
        -- apply Hmax. by right.
Qed.

(** X19: an element-type specification asks for the [Representation]
    attribute exactly when geometry is included and the type is one of
    the four upper-case structural type names, and it asks, optionally,
    for any property of a property set exactly when the type has property
    sets; that set is one of the type's sets and no set of the type is
    used more often. *)
Theorem element_specification_requirements (include_geometry : bool)
    (property_stats : list (string * pset_info)) element_type stats spec :
  element_specification include_geometry property_stats (element_type, stats) = Some spec ->
  ((exists card instr, Attribute "Representation" card instr ∈ requirements spec) <->
     include_geometry = true /\ element_type ∈ structural_types) /\
  ((exists base pset card instr, Property base pset card instr ∈ requirements spec) <->
     es_properties stats <> []) /\
  (forall base pset card instr,
     Property base pset card instr ∈ requirements spec ->
     base = "*" /\ card = "optional" /\ pset ∈ es_properties stats /\
     forall other, other ∈ es_properties stats ->
       (pset_usage property_stats other <= pset_usage property_stats pset)%Z).
Proof.
  unfold element_specification.
  destruct (es_count stats <? 2)%Z; [discriminate|]. intros [= <-]. simpl.
  split; [|split].
  - split.
    + intros (card & instr & Hin). apply elem_of_app in Hin as [Hin|Hin].
      * destruct include_geometry; simpl in Hin; [|by apply elem_of_nil in Hin].
        case_bool_decide; [done|by apply elem_of_nil in Hin].
      * destruct (es_properties stats); [by apply elem_of_nil in Hin|].
        apply list_elem_of_singleton in Hin. discriminate Hin.
    + intros [-> Hty]. simpl. rewrite bool_decide_eq_true_2 by done.
      eexists _, _. apply elem_of_app. left. constructor.
  - split.
    + intros (base & pset & card & instr & Hin). apply elem_of_app in Hin as [Hin|Hin].
      * destruct (include_geometry && _)%bool; [|by apply elem_of_nil in Hin].
        apply list_elem_of_singleton in Hin. discriminate Hin.
      * by destruct (es_properties stats); [apply elem_of_nil in Hin|].
    + intros Hne. destruct (es_properties stats) as [|x rest]; [done|].
      eexists _, _, _, _. apply elem_of_app. right. constructor.
  - intros base pset card instr Hin. apply elem_of_app in Hin as [Hin|Hin].
    + destruct (include_geometry && _)%bool; [|by apply elem_of_nil in Hin].
      apply list_elem_of_singleton in Hin. discriminate Hin.
    + destruct (es_properties stats) as [|x rest]; [by apply elem_of_nil in Hin|].
      apply list_elem_of_singleton in Hin. injection Hin as -> -> -> ->.
      destruct (max_from_spec (pset_usage property_stats) x rest) as [Hmem Hmax].
      by repeat split.
Qed.

Lemma element_specification_requirements_witness :
  exists spec,
    element_specification true example_property_stats
      ("IfcWall", ElementStat 10 ["Pset_WallCommon"] [] []) = Some spec /\
    forall base pset card instr,
      Property base pset card instr ∈ requirements spec -> base = "*".
Proof.
  destruct (element_specification true example_property_stats
              ("IfcWall", ElementStat 10 ["Pset_WallCommon"] [] []))
    as [spec|] eqn:Hspec; [|vm_compute in Hspec; discriminate Hspec].
  exists spec. split; [reflexivity|].
  intros base pset card instr Hin.
  exact (proj1 (proj2 (proj2 (element_specification_requirements _ _ _ _ _ Hspec))
                  base pset card instr Hin)).
Defined.

(** *** Dictionaries kept as association lists *)

Section Dict.
Context {V : Type}.
Implicit Types (d : list (string * V)) (k : string).

Lemma assoc_get_alter f k d k' :
  assoc_get (dict_alter f k d) k' =
    if decide (k' = k) then f <$> assoc_get d k' else assoc_get d k'.
Proof.
  induction d as [|[k0 v] d IH]; simpl; [by destruct (decide _)|].
  destruct (String.eqb_spec k k0) as [->|Hne]; simpl.
  - destruct (String.eqb_spec k' k0) as [->|Hne'].
    + by rewrite decide_True.
    + by rewrite decide_False.
  - destruct (String.eqb_spec k' k0) as [->|Hne'].
    + by rewrite decide_False.
    + apply IH.
Qed.

Lemma dict_alter_keys f k d : (dict_alter f k d).*1 = d.*1.
Proof.
  induction d as [|[k0 v] d IH]; csimpl; [done|].
  destruct (String.eqb k k0); csimpl; [done|]. by rewrite IH.
Qed.

Lemma assoc_get_snoc d k v k' :
  assoc_get (d ++ [(k, v)]) k' =
    match assoc_get d k' with
    | Some x => Some x
    | None => if decide (k' = k) then Some v else None
    end.
Proof.
  induction d as [|[k0 v0] d IH]; simpl.
  - destruct (String.eqb_spec k' k) as [->|Hne];
      [by rewrite decide_True|by rewrite decide_False].
  - by destruct (String.eqb k' k0).
Qed.

Lemma assoc_get_None d k : assoc_get d k = None <-> k ∉ d.*1.
Proof.
  induction d as [|[k0 v0] d IH]; csimpl.
  - split; [intros _; apply not_elem_of_nil|done].
  - destruct (String.eqb_spec k k0) as [->|Hne].
    + split; [done|]. intros H. exfalso. apply H. constructor.
    + rewrite IH. rewrite not_elem_of_cons. tauto.
Qed.

Lemma assoc_get_elem_of d k v : assoc_get d k = Some v -> (k, v) ∈ d.
Proof.
  induction d as [|[k0 v0] d IH]; simpl; [done|].
  destruct (String.eqb_spec k k0) as [->|Hne].
  - intros [= ->]. constructor.
  - intros H. right. by apply IH.
Qed.

Lemma elem_of_assoc_get d k v : NoDup d.*1 -> (k, v) ∈ d -> assoc_get d k = Some v.
Proof.
  intros Hnd Hin. destruct (assoc_get d k) as [v'|] eqn:Hget.
  - f_equal. apply assoc_get_elem_of in Hget. by eapply assoc_unique.
  - apply assoc_get_None in Hget. exfalso. apply Hget.
    apply list_elem_of_fmap. by exists (k, v).
Qed.

Lemma assoc_get_setdefault d k v k' :
  assoc_get (dict_setdefault k v d) k' =
    if decide (k' = k) then Some (default v (assoc_get d k)) else assoc_get d k'.
Proof.
  unfold dict_setdefault. destruct (assoc_get d k) as [x|] eqn:Hk.
  - destruct (decide (k' = k)) as [->|]; [by rewrite Hk|done].
  - rewrite assoc_get_snoc. destruct (decide (k' = k)) as [->|]; [by rewrite Hk|].
    by destruct (assoc_get d k').
Qed.

Lemma dict_setdefault_NoDup d k v : NoDup d.*1 -> NoDup (dict_setdefault k v d).*1.
Proof.
  intros Hnd. unfold dict_setdefault. destruct (assoc_get d k) eqn:Hk; [done|].
  rewrite fmap_app. apply NoDup_app. split; [done|]. split.
  - intros x Hx Hx'. apply list_elem_of_singleton in Hx'. simpl in Hx'. subst x.
    by apply assoc_get_None in Hk.
  - apply NoDup_singleton.
Qed.

Lemma dict_setdefault_length d k v :
  (length d <= length (dict_setdefault k v d))%nat.
Proof.
  unfold dict_setdefault. destruct (assoc_get d k); [done|]. rewrite length_app. lia.
Qed.

End Dict.

Lemma dict_alter_fmap {V W} (proj : V -> W) (f : V -> V) (g : W -> W) k
    (d : list (string * V)) :
  (forall v, proj (f v) = g (proj v)) ->
  (fun item => (fst item, proj (snd item))) <$> dict_alter f k d =
    dict_alter g k ((fun item => (fst item, proj (snd item))) <$> d).
Proof.
  intros Hfg. induction d as [|[k0 v] d IH]; csimpl; [done|].
  destruct (String.eqb k k0); csimpl; [by rewrite Hfg|]. by rewrite IH.
Qed.

Lemma assoc_get_fmap {V W} (proj : V -> W) (d : list (string * V)) k :
  assoc_get ((fun item => (fst item, proj (snd item))) <$> d) k = proj <$> assoc_get d k.
Proof.
  induction d as [|[k0 v] d IH]; csimpl; [done|]. by destruct (String.eqb k k0).
Qed.

Lemma dict_setdefault_fmap {V W} (proj : V -> W) k v (d : list (string * V)) :
  (fun item => (fst item, proj (snd item))) <$> dict_setdefault k v d =
    dict_setdefault k (proj v) ((fun item => (fst item, proj (snd item))) <$> d).
Proof.
  unfold dict_setdefault. rewrite assoc_get_fmap.
  destruct (assoc_get d k); simpl; [done|]. by rewrite fmap_app.
Qed.

Lemma dict_alter_id {V} (f : V -> V) k (d : list (string * V)) :
  (forall v, f v = v) -> dict_alter f k d = d.
Proof.
  intros Hf. induction d as [|[k0 v] d IH]; simpl; [done|].
  destruct (String.eqb k k0); [by rewrite Hf|by rewrite IH].
Qed.

(** *** Tallies *)

Lemma tally_snoc keys k : tally (keys ++ [k]) = tally_step (tally keys) k.
Proof. unfold tally. by rewrite foldl_snoc. Qed.

Lemma tally_NoDup keys : NoDup (tally keys).*1.
Proof.
  induction keys as [|k keys IH] using rev_ind; [constructor|].
  rewrite tally_snoc. unfold tally_step.
  rewrite dict_alter_keys. by apply dict_setdefault_NoDup.
Qed.

Lemma tally_get keys t :
  assoc_get (tally keys) t =
    if decide (length (filter (fun k => k = t) keys) = 0%nat) then None
    else Some (Z.of_nat (length (filter (fun k => k = t) keys))).
Proof.
  induction keys as [|k keys IH] using rev_ind; [done|].
  rewrite tally_snoc, filter_app, length_app. unfold tally_step.
  rewrite assoc_get_alter, assoc_get_setdefault.
  rewrite (filter_cons _ k), filter_nil.
  destruct (decide (t = k)) as [->|Hne].
  - rewrite (decide_True (P := k = k)) by done. simpl. rewrite IH.
    set (n := length (filter (fun k0 => k0 = k) keys)).
    rewrite (decide_False (P := (n + 1)%nat = 0%nat)) by lia.
    destruct (decide (n = 0%nat)) as [Hz|Hnz]; simpl; f_equal; lia.
  - rewrite (decide_False (P := k = t)) by done. simpl. rewrite Nat.add_0_r. apply IH.
Qed.

Lemma tally_sum keys :
  foldr Z.add 0%Z (snd <$> tally keys) = Z.of_nat (length keys).
Proof.
  assert (Hstep : forall (d : list (string * Z)) k,
    foldr Z.add 0%Z (snd <$> tally_step d k) = (foldr Z.add 0 (snd <$> d) + 1)%Z).
  { intros d k. unfold tally_step, dict_setdefault.
    destruct (assoc_get d k) as [c|] eqn:Hk.
    - clear -Hk. induction d as [|[k0 c0] d IH]; csimpl in *; [done|].
      destruct (String.eqb k k0); csimpl; [lia|]. rewrite IH by done. lia.
    - clear -Hk. induction d as [|[k0 c0] d IH]; csimpl in *.
      + rewrite String.eqb_refl. csimpl. lia.
      + destruct (String.eqb k k0); [done|]. csimpl. rewrite IH by done. lia. }
  induction keys as [|k keys IH] using rev_ind; [done|].
  rewrite tally_snoc, Hstep, IH, length_app. simpl. lia.
Qed.

Lemma foldl_tally_get (d0 : list (string * Z)) keys t :
  assoc_get (foldl tally_step d0 keys) t =
    if decide (length (filter (fun k => k = t) keys) = 0%nat) then assoc_get d0 t
    else Some (default 0 (assoc_get d0 t)
               + Z.of_nat (length (filter (fun k => k = t) keys)))%Z.
Proof.
  induction keys as [|k keys IH] using rev_ind; [done|].
  rewrite foldl_snoc, filter_app, length_app. unfold tally_step at 1.
  rewrite assoc_get_alter, assoc_get_setdefault.
  rewrite (filter_cons _ k), filter_nil.
  set (n := length (filter (fun k0 => k0 = t) keys)) in *.
  destruct (decide (t = k)) as [->|Hne].
  - rewrite (decide_True (P := k = k)) by done. simpl. rewrite IH.
    rewrite (decide_False (P := (n + 1)%nat = 0%nat)) by lia.
    destruct (decide (n = 0%nat)) as [Hz|Hnz]; simpl; f_equal; lia.
  - rewrite (decide_False (P := k = t)) by done. simpl. rewrite Nat.add_0_r. apply IH.
Qed.

Lemma foldl_tally_keys_NoDup (d0 : list (string * Z)) keys :
  NoDup d0.*1 -> NoDup (foldl tally_step d0 keys).*1.
Proof.
  intros Hd0. induction keys as [|k keys IH] using rev_ind; [done|].
  rewrite foldl_snoc. unfold tally_step at 1.
  rewrite dict_alter_keys. by apply dict_setdefault_NoDup.
Qed.

(** *** The analysis counts by tallying *)

Lemma analyze_property_counts properties item :
  property_counts (analyze_property properties item) =
    tally_step (property_counts properties) (fst item).
Proof.
  destruct item as [prop_name prop_value]. unfold analyze_property, property_counts, tally_step.
  rewrite (dict_alter_fmap pi_count _ (fun c => c + 1)%Z).
  - by rewrite (dict_setdefault_fmap pi_count).
  - intros v. by destruct prop_value as [[? ?]|].
Qed.

Lemma analyze_properties_counts props properties :
  property_counts (foldl analyze_property properties props) =
    foldl tally_step (property_counts properties) props.*1.
Proof.
  revert properties. induction props as [|item props IH]; intros properties; csimpl; [done|].
  by rewrite IH, analyze_property_counts.
Qed.

Lemma analyze_pset_counts element_type st item :
  type_counts (analyze_pset element_type st item) = type_counts st /\
  pset_counts (analyze_pset element_type st item) =
    match snd item with
    | Some _ => tally_step (pset_counts st) (fst item)
    | None => pset_counts st
    end.
Proof.
  destruct item as [pset_name [properties|]]; simpl; [|done]. split.
  - unfold type_counts. simpl.
    rewrite (dict_alter_fmap ei_count _ (fun c => c)) by done.
    by apply dict_alter_id.
  - unfold pset_counts, tally_step. simpl.
    rewrite (dict_alter_fmap pst_count _ (fun c => c + 1)%Z) by done.
    by rewrite (dict_setdefault_fmap pst_count).
Qed.

Lemma analyze_psets_counts element_type psets st :
  type_counts (foldl (analyze_pset element_type) st psets) = type_counts st /\
  pset_counts (foldl (analyze_pset element_type) st psets) =
    foldl tally_step (pset_counts st)
      (omap (fun item => match snd item with Some _ => Some (fst item) | None => None end)
            psets).
Proof.
  revert st. induction psets as [|item psets IH]; intros st; csimpl; [done|].
  destruct (IH (analyze_pset element_type st item)) as [-> ->].
  destruct (analyze_pset_counts element_type st item) as [-> ->].
  split; [done|]. by destruct (snd item).
Qed.

Lemma analyze_material_counts element_type st m :
  type_counts (analyze_material element_type st m) = type_counts st /\
  property_stats (analyze_material element_type st m) = property_stats st.
Proof.
  unfold analyze_material. destruct (material_Name m) as [nm|]; [|done].
  destruct (truthy nm); [|done]. split; [|done].
  unfold type_counts. simpl.
  rewrite (dict_alter_fmap ei_count _ (fun c => c)) by done.
  by apply dict_alter_id.
Qed.

Lemma analyze_association_counts element_type st a :
  type_counts (analyze_association element_type st a) = type_counts st /\
  property_stats (analyze_association element_type st a) = property_stats st.
Proof.
  unfold analyze_association. destruct a as [[nm|]|]; try done.
  destruct (truthy nm); [|done]. split; [|done].
  unfold type_counts. simpl.
  rewrite (dict_alter_fmap ei_count _ (fun c => c)) by done.
  by apply dict_alter_id.
Qed.

Lemma foldl_preserves {A B C} (f : A -> B -> A) (proj : A -> C) l a :
  (forall a' b, proj (f a' b) = proj a') -> proj (foldl f a l) = proj a.
Proof.
  intros Hf. revert a. induction l as [|b l IH]; intros a; simpl; [done|].
  by rewrite IH, Hf.
Qed.

Lemma analyze_element_counts st element :
  type_counts (analyze_element st element) =
    tally_step (type_counts st) (product_is_a element) /\
  pset_counts (analyze_element st element) =
    foldl tally_step (pset_counts st) (pset_names element).
Proof.
  unfold analyze_element, _analyze_element_classifications, _analyze_element_materials,
    _analyze_element_properties, pset_names.
  set (counted := Patcher _ _ _ _ _).
  assert (Hc : type_counts counted = tally_step (type_counts st) (product_is_a element)).
  { unfold type_counts, counted, tally_step. simpl.
    rewrite (dict_alter_fmap ei_count _ (fun c => c + 1)%Z) by done.
    by rewrite (dict_setdefault_fmap ei_count). }
  assert (Hp : pset_counts counted = pset_counts st) by done.
  set (st1 := match get_psets element with
              | Some psets => foldl (analyze_pset (product_is_a element)) counted psets
              | None => with_log counted CouldNotAnalyzeProperties
              end).
  assert (H1 : type_counts st1 = type_counts counted /\
               pset_counts st1 =
                 foldl tally_step (pset_counts counted)
                   match get_psets element with
                   | Some psets =>
                       omap (fun item => match snd item with
                                         | Some _ => Some (fst item)
                                         | None => None
                                         end) psets
                   | None => []
                   end).
  { unfold st1. destruct (get_psets element) as [psets|]; [|done].
    apply analyze_psets_counts. }
  set (st2 := match get_materials element with
              | Some materials => foldl (analyze_material (product_is_a element)) st1 materials
              | None => with_log st1 CouldNotAnalyzeMaterials
              end).
  assert (H2 : type_counts st2 = type_counts st1 /\ pset_counts st2 = pset_counts st1).
  { unfold st2. destruct (get_materials element) as [materials|]; [|done]. split.
    - apply (foldl_preserves _ type_counts). intros a b. apply analyze_material_counts.
    - unfold pset_counts. f_equal.
      apply (foldl_preserves _ property_stats). intros a b. apply analyze_material_counts. }
  destruct H1 as [H1a H1b], H2 as [H2a H2b]. split.
  - rewrite (foldl_preserves _ type_counts)
      by (intros a b; apply analyze_association_counts).
    by rewrite H2a, H1a, Hc.
  - unfold pset_counts at 1.
    rewrite (foldl_preserves _ property_stats)
      by (intros a b; apply analyze_association_counts).
    fold (pset_counts st2). by rewrite H2b, H1b, Hp.
Qed.

Lemma analyze_model_counts products :
  type_counts (_analyze_model products) = tally (product_is_a <$> products) /\
  pset_counts (_analyze_model products) = tally (products ≫= pset_names).
Proof.
  unfold _analyze_model.
  induction products as [|element products [IHt IHp]] using rev_ind; [done|].
  rewrite foldl_snoc.
  destruct (analyze_element_counts
              (foldl analyze_element (Patcher [] [] [] [] []) products) element)
    as [-> ->].
  rewrite IHt, IHp, fmap_app, bind_app. split.
  - change (product_is_a <$> [element]) with [product_is_a element].
    by rewrite tally_snoc.
  - unfold tally. rewrite foldl_app. csimpl. by rewrite app_nil_r.
Qed.

Lemma count_type_filter t products :
  length (filter (fun k => k = t) (product_is_a <$> products)) = count_type t products.
Proof.
  unfold count_type. induction products as [|p products IH]; csimpl; [done|].
  rewrite (filter_cons _ (product_is_a p)), (filter_cons _ p).
  destruct (decide (product_is_a p = t)); simpl; by rewrite IH.
Qed.

Lemma keys_of_counts {V} (proj : V -> Z) (d : list (string * V)) :
  ((fun item => (fst item, proj (snd item))) <$> d).*1 = d.*1.
Proof. induction d as [|[k v] d IH]; csimpl; [done|]. by rewrite IH. Qed.

(** X20: after the analysis the statistics hold one entry per element
    type and per property-set name; the count of a type is the number of
    products of that type, and the count of a property set is the number
    of dictionaries [get_psets] returned under its name.  A type or a set
    that does not occur has no entry. *)
Theorem analysis_counts (products : list product) (t n : string) :
  let st := _analyze_model products in
  NoDup (element_stats st).*1 /\
  NoDup (property_stats st).*1 /\
  ei_count <$> assoc_get (element_stats st) t =
    (if decide (count_type t products = 0%nat) then None
     else Some (Z.of_nat (count_type t products))) /\
  pst_count <$> assoc_get (property_stats st) n =
    (if decide (count_pset n products = 0%nat) then None
     else Some (Z.of_nat (count_pset n products))).
Proof.
  intros st. destruct (analyze_model_counts products) as [Ht Hp]. fold st in Ht, Hp.
  split; [|split; [|split]].
  - rewrite <- (keys_of_counts ei_count). fold (type_counts st). rewrite Ht.
    apply tally_NoDup.
  - rewrite <- (keys_of_counts pst_count). fold (pset_counts st). rewrite Hp.
    apply tally_NoDup.
  - rewrite <- assoc_get_fmap. fold (type_counts st).
    by rewrite Ht, tally_get, count_type_filter.
  - rewrite <- assoc_get_fmap. fold (pset_counts st).
    by rewrite Hp, tally_get.
Qed.

(** *** Thresholds in terms of the model *)

Lemma generation_element_stats_elem iter st t stats :
  (t, stats) ∈ generation_element_stats iter st <->
  exists info, (t, info) ∈ element_stats st /\
    stats = ElementStat (ei_count info) (iter (ei_properties info))
              (iter (ei_materials info)) (iter (ei_classifications info)).
Proof.
  unfold generation_element_stats. rewrite list_elem_of_fmap. split.
  - intros ([t' info] & [= -> ->] & Hin). by exists info.
  - intros (info & Hin & ->). by exists (t, info).
Qed.

Lemma generation_property_stats_elem iter st n pinfo :
  (n, pinfo) ∈ generation_property_stats iter st <->
  exists info, (n, info) ∈ property_stats st /\
    pinfo = PsetInfo (iter (pst_elements info)) (pst_properties info) (pst_count info).
Proof.
  unfold generation_property_stats. rewrite list_elem_of_fmap. split.
  - intros ([n' info] & [= -> ->] & Hin). by exists info.
  - intros (info & Hin & ->). by exists (n, info).
Qed.

(** X21: for a model, whatever the iteration order of the sets: an
    element type gets an element-type specification exactly when the
    model has at least 2 products of that type, and a property-set
    specification is made only for a property set that [get_psets]
    returned at least 3 times. *)
Theorem patch_thresholds_on_the_model (iter : gset string -> list string)
    (include_geometry : bool) (products : list product) :
  let st := _analyze_model products in
  let element_specs :=
    _create_element_specifications include_geometry
      (generation_element_stats iter st) (generation_property_stats iter st) in
  (forall t,
     (exists spec, spec ∈ element_specs /\ applicability spec = [MkEntity t]) <->
     (2 <= count_type t products)%nat) /\
  (forall spec,
     spec ∈ _create_property_specifications (generation_property_stats iter st) ->
     exists n, name spec = n +:+ " Properties" /\ (3 <= count_pset n products)%nat) /\
  (forall spec,
     spec ∈ patch_specifications iter include_geometry products <->
     spec ∈ element_specs \/
     spec ∈ _create_property_specifications (generation_property_stats iter st)).
Proof.
  intros st element_specs.
  destruct (analysis_counts products "" "") as (Hnd_e & Hnd_p & _ & _). fold st in Hnd_e, Hnd_p.
  split; [|split].
  - intros t. split.
    + intros (spec & Hin & Happ).
      apply list_elem_of_omap in Hin as ([t' stats] & Hin & Hspec).
      apply element_specification_inv in Hspec as (Hcount & _ & Happ').
      rewrite Happ in Happ'. injection Happ' as <-.
      apply generation_element_stats_elem in Hin as (info & Hin & ->). simpl in Hcount.
      apply (elem_of_assoc_get _ _ _ Hnd_e) in Hin.
      destruct (analysis_counts products t "") as (_ & _ & Hget & _).
      fold st in Hget. rewrite Hin in Hget. simpl in Hget.
      destruct (decide (count_type t products = 0%nat)); [done|].
      injection Hget as Hget. lia.
    + intros Hcount.
      destruct (analysis_counts products t "") as (_ & _ & Hget & _). fold st in Hget.
      rewrite decide_False in Hget by lia.
      destruct (assoc_get (element_stats st) t) as [info|] eqn:Hinfo; [|done].
      injection Hget as Hget. apply assoc_get_elem_of in Hinfo.
      set (stats := ElementStat (ei_count info) (iter (ei_properties info))
                      (iter (ei_materials info)) (iter (ei_classifications info))).
      destruct (element_specification include_geometry
                  (generation_property_stats iter st) (t, stats)) as [spec|] eqn:Hspec.
      * exists spec. split.
        -- apply list_elem_of_omap. exists (t, stats). split; [|done].
           apply generation_element_stats_elem. by exists info.
        -- by apply element_specification_inv in Hspec as (_ & _ & Happ).
      * exfalso. unfold element_specification in Hspec. simpl in Hspec.
        destruct (ei_count info <? 2)%Z eqn:E; [|discriminate].
        apply Z.ltb_lt in E. lia.
  - intros spec Hin.
    apply property_specification_source in Hin as (n & pinfo & _ & Hin & Hspec).
    apply pset_specification_inv in Hspec as (Hcount & Hname & _).
    apply generation_property_stats_elem in Hin as (info & Hin & ->). simpl in Hcount.
    apply (elem_of_assoc_get _ _ _ Hnd_p) in Hin.
    destruct (analysis_counts products "" n) as (_ & _ & _ & Hget).
    fold st in Hget. rewrite Hin in Hget. simpl in Hget.
    destruct (decide (count_pset n products = 0%nat)); [done|].
    injection Hget as Hget. exists n. split; [done|lia].
  - intros spec. unfold patch_specifications, _create_ids_specification.
    apply elem_of_app.
Qed.

Lemma patch_thresholds_on_the_model_witness :
  exists spec,
    spec ∈ _create_element_specifications false
             (generation_element_stats elements (_analyze_model example_products))
             (generation_property_stats elements (_analyze_model example_products)) /\
    applicability spec = [MkEntity "IfcWall"].
Proof.
  apply (proj1 (patch_thresholds_on_the_model elements false example_products) "IfcWall").
  vm_compute. lia.
Defined.

(** *** Property counts stay below the count of their set *)

Lemma filter_eq_not_elem_of (l : list string) k :
  k ∉ l -> filter (fun x => x = k) l = [].
Proof.
  induction l as [|x l IH]; intros Hk; [done|].
  apply not_elem_of_cons in Hk as [Hne Hk].
  rewrite (filter_cons _ x). destruct (decide (x = k)); [congruence|by apply IH].
Qed.

Lemma NoDup_filter_eq_length (l : list string) k :
  NoDup l -> (length (filter (fun x => x = k) l) <= 1)%nat.
Proof.
  induction l as [|x l IH]; intros Hnd; [simpl; lia|].
  apply NoDup_cons in Hnd as [Hx Hnd].
  rewrite (filter_cons _ x). destruct (decide (x = k)) as [->|]; [|by apply IH].
  rewrite filter_eq_not_elem_of by done. simpl. lia.
Qed.

Lemma analyze_pset_consistent element_type st pset_name props :
  NoDup props.*1 ->
  consistent_property_stats (property_stats st) ->
  consistent_property_stats
    (property_stats (analyze_pset element_type st (pset_name, Some props))).
Proof.
  intros Hprops Hcons n info. simpl.
  rewrite assoc_get_alter, assoc_get_setdefault.
  destruct (decide (n = pset_name)) as [->|Hne]; [|by apply Hcons].
  simpl. intros [= <-]. simpl.
  set (old := default (PsetStat ∅ [] 0) (assoc_get (property_stats st) pset_name)).
  assert (Hold : (0 <= pst_count old)%Z /\ NoDup (pst_properties old).*1 /\
                 forall p c, assoc_get (property_counts (pst_properties old)) p = Some c ->
                   (1 <= c <= pst_count old)%Z).
  { unfold old. destruct (assoc_get (property_stats st) pset_name) as [o|] eqn:Ho.
    - by apply (Hcons pset_name).
    - simpl. split; [done|]. split; [constructor|]. intros p c Hget. discriminate Hget. }
  destruct Hold as (Hc0 & Hnd & Hbound).
  split; [lia|]. split.
  - rewrite <- (keys_of_counts pi_count). fold (property_counts
      (foldl analyze_property (pst_properties old) props)).
    rewrite analyze_properties_counts. apply foldl_tally_keys_NoDup.
    unfold property_counts. by rewrite keys_of_counts.
  - intros p c. rewrite analyze_properties_counts, foldl_tally_get.
    pose proof (NoDup_filter_eq_length props.*1 p Hprops) as Hle.
    destruct (decide (length (filter (fun k => k = p) props.*1) = 0%nat)) as [Hz|Hnz].
    + intros Hget. apply Hbound in Hget. lia.
    + intros [= <-].
      destruct (assoc_get (property_counts (pst_properties old)) p) as [c0|] eqn:Hc;
        simpl; [apply Hbound in Hc|]; lia.
Qed.

Lemma analyze_element_consistent st element :
  distinct_property_names element ->
  consistent_property_stats (property_stats st) ->
  consistent_property_stats (property_stats (analyze_element st element)).
Proof.
  intros Hnames Hcons.
  unfold analyze_element, _analyze_element_classifications, _analyze_element_materials.
  rewrite (foldl_preserves _ property_stats)
    by (intros a b; apply analyze_association_counts).
  set (st1 := _analyze_element_properties _ _ _).
  assert (H1 : consistent_property_stats (property_stats st1)).
  { unfold st1, _analyze_element_properties.
    destruct (get_psets element) as [psets|] eqn:Hpsets; [|done].
    assert (Hall : forall n props, (n, Some props) ∈ psets -> NoDup props.*1)
      by (intros n props; by apply Hnames).
    clear Hpsets. set (counted := Patcher _ _ _ _ _).
    assert (Hc : consistent_property_stats (property_stats counted)) by done.
    clearbody counted. revert counted Hc.
    induction psets as [|[n [props|]] psets IH]; intros counted Hc; simpl; [done| |].
    - apply IH.
      + intros n' props' Hin. apply (Hall n' props'). by right.
      + apply analyze_pset_consistent; [|done]. apply (Hall n props). constructor.
    - apply IH; [|done]. intros n' props' Hin. apply (Hall n' props'). by right. }
  destruct (get_materials element) as [materials|]; [|done].
  by rewrite (foldl_preserves _ property_stats)
    by (intros a b; apply analyze_material_counts).
Qed.

(** X22: when the dictionaries [get_psets] returns have distinct property
    names, every property of the statistics is counted at least once and
    at most as often as its property set, so no property is used in more
    than 100% of the occurrences of its set. *)
Theorem property_counts_bounded (products : list product) n info p pinfo :
  (forall element, element ∈ products -> distinct_property_names element) ->
  (n, info) ∈ property_stats (_analyze_model products) ->
  (p, pinfo) ∈ pst_properties info ->
  (1 <= pi_count pinfo <= pst_count info)%Z.
Proof.
  intros Hnames Hn Hp.
  assert (Hcons : consistent_property_stats (property_stats (_analyze_model products))).
  { unfold _analyze_model. clear Hn.
    induction products as [|element products IH] using rev_ind; [done|].
    rewrite foldl_snoc. apply analyze_element_consistent.
    - apply Hnames. apply elem_of_app. right. constructor.
    - apply IH. intros e He. apply Hnames. apply elem_of_app. by left. }
  destruct (analysis_counts products "" "") as (_ & Hnd & _).
  apply (elem_of_assoc_get _ _ _ Hnd) in Hn.
  destruct (Hcons n info Hn) as (_ & Hndp & Hbound).
  apply (Hbound p). unfold property_counts. rewrite assoc_get_fmap.
  by rewrite (elem_of_assoc_get _ _ _ Hndp Hp).
Qed.

Lemma example_products_distinct element :
  element ∈ example_products -> distinct_property_names element.
Proof.
  intros Hin psets n props Hpsets Hn.
  assert (Hcases : element = example_wall \/ element = Product "IfcDoor" None None []).
  { unfold example_products in Hin.
    repeat (apply elem_of_cons in Hin as [->|Hin]; [tauto|]).
    by apply elem_of_nil in Hin. }
  destruct Hcases as [-> | ->]; [|discriminate Hpsets].
  injection Hpsets as <-. apply list_elem_of_singleton in Hn. injection Hn as -> ->.
  csimpl. apply NoDup_cons. split; [|apply NoDup_singleton].
  intros H. apply list_elem_of_singleton in H. discriminate H.
Defined.

Lemma property_counts_bounded_witness :
  exists info pinfo,
    property_stats (_analyze_model example_products) !! 0%nat
      = Some ("Pset_WallCommon", info) /\
    pst_properties info !! 0%nat = Some ("LoadBearing", pinfo) /\
    (1 <= pi_count pinfo <= pst_count info)%Z.
Proof.
  destruct (property_stats (_analyze_model example_products) !! 0%nat)
    as [[n info]|] eqn:Hinfo; [|vm_compute in Hinfo; discriminate Hinfo].
  assert (Hn : n = "Pset_WallCommon")
    by (vm_compute in Hinfo; injection Hinfo as <- _; reflexivity).
  subst n.
  destruct (pst_properties info !! 0%nat) as [[p pinfo]|] eqn:Hp;
    [|vm_compute in Hinfo; injection Hinfo as <-; discriminate Hp].
  assert (Hpn : p = "LoadBearing")
    by (vm_compute in Hinfo; injection Hinfo as <-; injection Hp as <- _; reflexivity).
  subst p.
  exists info, pinfo. split; [reflexivity|]. split; [exact Hp|].
  apply (property_counts_bounded example_products "Pset_WallCommon" info "LoadBearing").
  - exact example_products_distinct.
  - by eapply list_elem_of_lookup_2.
  - by eapply list_elem_of_lookup_2.
Defined.

(** *** The summary report *)

Lemma foldl_tally_length (d0 : list (string * Z)) keys :
  (length (foldl tally_step d0 keys) <= length d0 + length keys)%nat.
Proof.
  induction keys as [|k keys IH] using rev_ind; [simpl; lia|].
  rewrite foldl_snoc, length_app. unfold tally_step at 1.
  assert (Hlen : forall (d : list (string * Z)),
            length (dict_alter (fun c => (c + 1)%Z) k d) = length d).
  { intros d. rewrite <- (length_fmap fst), dict_alter_keys. apply length_fmap. }
  rewrite Hlen. unfold dict_setdefault.
  destruct (assoc_get _ k); [lia|]. rewrite length_app. simpl. lia.
Qed.

(** X23: the summary written beside the IDS file counts every product of
    the model once: [total_elements] is the number of products,
    [element_breakdown] is their tally by type, there are no more element
    types than products, and at most 10 property sets are listed, by
    descending count. *)
Theorem summary_report_totals (products : list product)
    (specifications : list Specification) :
  let report := _create_summary_report (_analyze_model products) specifications in
  total_elements report = Z.of_nat (length products) /\
  element_breakdown report = tally (product_is_a <$> products) /\
  (total_element_types report <= length products)%nat /\
  (length (top_property_sets report) <= 10)%nat /\
  StronglySorted (fun a b => (snd b <= snd a)%Z) (top_property_sets report) /\
  specifications_created report = length specifications.
Proof.
  intros report. unfold report, _create_summary_report. simpl.
  destruct (analyze_model_counts products) as [Ht _].
  unfold type_counts in Ht.
  split; [|split; [|split; [|split; [|split]]]].
  - rewrite <- (length_fmap product_is_a products), <- tally_sum, <- Ht.
    by rewrite <- list_fmap_compose.
  - exact Ht.
  - rewrite <- (length_fmap (fun item => (fst item, ei_count (snd item)))), Ht.
    etrans; [apply foldl_tally_length|]. simpl. by rewrite length_fmap.
  - rewrite length_fmap, length_take. lia.
  - set (key := fun x : string * pset_stat => pst_count (snd x)).
    pose proof (sorted_desc_sorted key (property_stats (_analyze_model products))) as Hs.
    rewrite <- (take_drop 10 (sorted_desc key _)) in Hs.
    apply StronglySorted_app_1_l in Hs.
    induction Hs as [|a l Hl IH Ha]; csimpl; constructor; [done|].
    apply Forall_fmap. eapply Forall_impl; [exact Ha|]. by intros b Hb.
  - done.
Qed.

End AnalyzerFacts.

(** ** The fetch panel *)

Module FetchPanelFacts.
Import FetchPanel.

(** C8: when the request for the model list fails, connecting finishes
    and the scene holds the four mock models, in their order. *)
Theorem connect_falls_back_to_mock_models (sc : scene) (r : response) :
  ids_fetch_server_selection sc = "DE_BIM_PORTAL" ->
  (exists e, r = RequestException e \/ r = OtherException e) ->
  let o := execute sc r in
  out_status o = FINISHED /\
  (forall l msg, (l, msg) ∈ out_reports o -> l = INFO) /\
  name <$> ids_fetch_domain_models (out_scene o) =
    [ "Brandschutz Hochbau 2024"; "Barrierefreiheit DIN 18040";
      "DB InfraGO Eisenbahnbrücken"; "Nachhaltigkeit DGNB" ] /\
  length (ids_fetch_domain_models (out_scene o)) = 4%nat /\
  ids_fetch_models_count (out_scene o) = 4%Z /\
  ids_fetch_server_connected (out_scene o) = true.
Proof.
  intros Hsel (e & Hr) o. unfold o, execute. rewrite Hsel. simpl.
  assert (Hmodels : _fetch_bim_portal_models r = _get_mock_domain_models)
    by (destruct Hr as [-> | ->]; reflexivity).
  rewrite Hmodels. repeat split.
  intros l msg Hin.
  apply elem_of_cons in Hin as [[= -> _]|Hin]; [done|].
  apply elem_of_cons in Hin as [[= -> _]|Hin]; [done|].
  by apply elem_of_nil in Hin.
Qed.

Lemma connect_falls_back_to_mock_models_witness :
  out_status (execute (Scene "DE_BIM_PORTAL" [] false 0)
                (RequestException "connection refused")) = FINISHED.
Proof.
  exact (proj1 (connect_falls_back_to_mock_models
                  (Scene "DE_BIM_PORTAL" [] false 0)
                  (RequestException "connection refused")
                  eq_refl
                  (ex_intro _ "connection refused" (or_introl eq_refl)))).
Defined.

(** *** Outcomes of connecting *)



(** *** Outcomes of downloading *)

Lemma mock_ids_content_truthy model_name :
  truthy (_create_mock_ids_content model_name) = true.
Proof. reflexivity. Qed.

(** X25: the download finishes exactly when a model GUID and a file path
    are given, the portal request yields a non-empty content and saving
    goes through; then that content is what is saved and the scene
    remembers the model.  In every other case it is cancelled with an
    error as its last report, nothing is saved and the scene is left as
    it was. *)
Theorem download_outcomes (op : download_operator) (sc : download_scene)
    (r : ids_response) (save : save_result) :
  let o := download op sc r save in
  (dl_status o = FINISHED <->
     model_guid op <> "" /\ filepath op <> "" /\
     (exists ids_content,
        _fetch_ids_from_bim_portal r (model_name op) = Some ids_content /\
        ids_content <> "") /\
     exists path_str file_name, save = Saved path_str file_name) /\
  (dl_status o = FINISHED ->
     dl_written o = _fetch_ids_from_bim_portal r (model_name op) /\
     ids_fetch_last_model_guid (dl_scene o) = model_guid op /\
     ids_fetch_last_model_name (dl_scene o) = model_name op /\
     forall path_str file_name, save = Saved path_str file_name ->
       ids_fetch_last_download (dl_scene o) = path_str) /\
  (dl_status o = CANCELLED ->
     dl_scene o = sc /\ dl_written o = None /\
     exists msg, last (dl_reports o) = Some (ERROR, msg)).
Proof.
  intros o. unfold o, download.
  destruct (truthy (model_guid op)) eqn:Hguid; simpl.
  2:{ apply truthy_false in Hguid. split; [split; [discriminate|tauto]|].
      split; [discriminate|]. intros _. repeat split. eauto. }
  destruct (truthy (filepath op)) eqn:Hpath; simpl.
  2:{ apply truthy_false in Hpath. split; [split; [discriminate|tauto]|].
      split; [discriminate|]. intros _. repeat split. eauto. }
  apply truthy_true in Hguid, Hpath.
  destruct (_fetch_ids_from_bim_portal r (model_name op)) as [content|] eqn:Hfetch.
  2:{ split; [split; [discriminate|]|].
      - by intros (_ & _ & (c & Hc & _) & _).
      - split; [discriminate|]. intros _. repeat split. eauto. }
  destruct (truthy content) eqn:Hcontent.
  2:{ apply truthy_false in Hcontent. split; [split; [discriminate|]|].
      - intros (_ & _ & (c & [= <-] & Hc) & _). done.
      - split; [discriminate|]. intros _. repeat split. eauto. }
  apply truthy_true in Hcontent.
  destruct save as [e|path_str file_name]; simpl.
  - split; [split; [discriminate|]|].
    + by intros (_ & _ & _ & p & n & Hsave).
    + split; [discriminate|]. intros _. repeat split. eauto.
  - split; [split; [|done]|].
    + intros _. repeat split; try done; eauto.
    + split; [|discriminate]. intros _. repeat split. by intros p n [= <- _].
Qed.

Lemma download_outcomes_witness :
  dl_written (download (DownloadOperator "guid-1" "Brandschutz" "/tmp/brandschutz.ids")
                (DownloadScene "" "" "") (IdsText "<ids/>")
                (Saved "/tmp/brandschutz.ids" "brandschutz.ids"))
    = Some "<ids/>".
Proof.
  exact (proj1 (proj1 (proj2 (download_outcomes
           (DownloadOperator "guid-1" "Brandschutz" "/tmp/brandschutz.ids")
           (DownloadScene "" "" "") (IdsText "<ids/>")
           (Saved "/tmp/brandschutz.ids" "brandschutz.ids"))) eq_refl)).
Defined.

(** X26: when the portal request fails with a request error, the download
    does not fail: given a GUID, a path and a save that goes through, it
    finishes and what it saves is the mock document made for the model
    name, not a document of the portal.  Any other exception during the
    request cancels the download. *)
Theorem download_on_request_failure (op : download_operator) (sc : download_scene)
    (e : string) (save : save_result) path_str file_name :
  model_guid op <> "" -> filepath op <> "" ->
  save = Saved path_str file_name ->
  dl_status (download op sc (IdsRequestException e) save) = FINISHED /\
  dl_written (download op sc (IdsRequestException e) save)
    = Some (_create_mock_ids_content (model_name op)) /\
  ids_fetch_last_download (dl_scene (download op sc (IdsRequestException e) save))
    = path_str /\
  dl_status (download op sc (IdsOtherException e) save) = CANCELLED /\
  dl_written (download op sc (IdsOtherException e) save) = None.
Proof.
  intros Hguid Hpath ->. unfold download.
  destruct (truthy_true (model_guid op)) as [_ ->]; [|done].
  destruct (truthy_true (filepath op)) as [_ ->]; [|done].
  cbn [negb _fetch_ids_from_bim_portal]. by rewrite mock_ids_content_truthy.
Qed.

Lemma download_on_request_failure_witness :
  dl_status (download (DownloadOperator "guid-1" "Brandschutz" "/tmp/brandschutz.ids")
               (DownloadScene "" "" "") (IdsRequestException "timeout")
               (Saved "/tmp/brandschutz.ids" "brandschutz.ids")) = FINISHED.
Proof.
  exact (proj1 (download_on_request_failure
           (DownloadOperator "guid-1" "Brandschutz" "/tmp/brandschutz.ids")
           (DownloadScene "" "" "") "timeout"
           (Saved "/tmp/brandschutz.ids" "brandschutz.ids")
           "/tmp/brandschutz.ids" "brandschutz.ids"
           ltac:(discriminate) ltac:(discriminate) eq_refl)).
Defined.

End FetchPanelFacts.
